(** * Constrained quaternion sampling and root-state reset

    A shallow embedding of
    [source/isaaclab/isaaclab/envs/mdp/commands/test_rotation.py]:
    the two samplers [sample_quat_within_rot_angle] and
    [sample_quat_within_angle], the range resampler [test_dict] and the
    event [reset_root_state_clamped_angular_distance].

    Conventions of the embedding.
    - Floats are real numbers (exact arithmetic).  Where torch would
      produce nan or inf (a division by zero, the square root of a
      negative number) the value is [undefined], tracked per tensor row.
    - A tensor of shape (N, k) is a list of N rows.  The samplers only
      use element-wise and row-wise operations, so a batch is the
      row-by-row image of one row function.
    - Random generators are inputs: [rand i] is entry [i] of
      [torch.rand(N)] (contract: [0 <= rand i < 1]) and [randn i] is row
      [i] of [torch.randn((N, 3))] (any real 3-vector).
    - Python exceptions abort the call; the environment is threaded
      through so that what was written before an exception stays
      written.  Devices are not modelled. *)

From Stdlib Require Import Reals Lra Psatz.
From stdpp Require Import base option list gmap strings.

Local Open Scope R_scope.

(** ** Scalars: torch arithmetic over the reals *)

Module Torch.

Inductive undefined : Type :=
  | DivisionByZero
  | SqrtOfNegative.

(** A value that torch may have turned into nan/inf. *)
Definition num (A : Type) : Type := undefined + A.

Definition ret {A} (a : A) : num A := inr a.

Definition bind {A B} (m : num A) (k : A -> num B) : num B :=
  match m with
  | inl e => inl e
  | inr a => k a
  end.

(** [torch.sqrt]: nan on a negative argument. *)
Definition torch_sqrt (x : R) : num R :=
  if Rle_dec 0 x then inr (sqrt x) else inl SqrtOfNegative.

(** Tensor division [a / b]: nan or inf when [b] is zero. *)
Definition torch_div (a b : R) : num R :=
  if Req_dec_T b 0 then inl DivisionByZero else inr (a / b).

End Torch.

Import Torch.

Notation "x <~ m ;; k" := (Torch.bind m (fun x => k))
  (at level 100, m at next level, right associativity).

(** ** Quaternions (w, x, y, z) and 3-vectors *)

Record quat : Type := Quat { qw : R; qx : R; qy : R; qz : R }.

Record vec3 : Type := Vec3 { vx : R; vy : R; vz : R }.

Definition quat_identity : quat := Quat 1 0 0 0.

Definition vec3_zero : vec3 := Vec3 0 0 0.

Definition quat_norm2 (q : quat) : R :=
  qw q ^ 2 + qx q ^ 2 + qy q ^ 2 + qz q ^ 2.

Definition quat_norm (q : quat) : R := sqrt (quat_norm2 q).

Definition quat_dot (p q : quat) : R :=
  qw p * qw q + qx p * qx q + qy p * qy q + qz p * qz q.

(** Angular distance of the spec: [2*arccos(|dot|)]. *)
Definition angular_distance (p q : quat) : R :=
  2 * acos (Rabs (quat_dot p q)).

(** [v.norm(dim=-1)] of one row. *)
Definition vec3_norm (v : vec3) : R :=
  sqrt (vx v ^ 2 + vy v ^ 2 + vz v ^ 2).

(** Modelled from the spec: [isaaclab.utils.math.quat_mul] is not among
    the sources.  Spec 4.1 step 6 composes by quaternion multiplication,
    [result = reference (x) local], on (w, x, y, z) components: the
    Hamilton product. *)
Definition quat_mul (q1 q2 : quat) : quat :=
  Quat (qw q1 * qw q2 - qx q1 * qx q2 - qy q1 * qy q2 - qz q1 * qz q2)
       (qw q1 * qx q2 + qx q1 * qw q2 + qy q1 * qz q2 - qz q1 * qy q2)
       (qw q1 * qy q2 - qx q1 * qz q2 + qy q1 * qw q2 + qz q1 * qx q2)
       (qw q1 * qz q2 + qx q1 * qy q2 - qy q1 * qx q2 + qz q1 * qw q2).

(** ** The samplers *)

Module Sampler.

(** [cos_phi = (1.0 - u) + u * torch.cos(max_angle / 2.0)] *)
Definition cos_phi (max_angle u : R) : R :=
  (1 - u) + u * cos (max_angle / 2).

(** [sin_phi = torch.sqrt(1.0 - cos_phi**2)] *)
Definition sin_phi (max_angle u : R) : num R :=
  torch_sqrt (1 - cos_phi max_angle u ^ 2).

(** [v = v / v.norm(dim=-1, keepdim=True)]: every component of the row
    is divided by the row's norm; there is no test on the norm. *)
Definition normalize (v : vec3) : num vec3 :=
  let n := vec3_norm v in
  x <~ torch_div (vx v) n ;;
  y <~ torch_div (vy v) n ;;
  z <~ torch_div (vz v) n ;;
  ret (Vec3 x y z).

(** [torch.cat([cos_phi.unsqueeze(-1), sin_phi.unsqueeze(-1) * v], dim=-1)] *)
Definition local_quat (c s : R) (v : vec3) : quat :=
  Quat c (s * vx v) (s * vy v) (s * vz v).

(** One row of [sample_quat_within_angle] (lines 86-98). *)
Definition within_angle_row (q : quat) (max_angle u : R) (v : vec3) : num quat :=
  let cos_phi := cos_phi max_angle u in
  sin_phi <~ sin_phi max_angle u ;;
  v <~ normalize v ;;
  let local_quat := local_quat cos_phi sin_phi v in
  ret (quat_mul q local_quat).

(** One row of [sample_quat_within_rot_angle] (lines 21-36); the cosine
    of the half angle is computed first, as [cos_theta]. *)
Definition within_rot_angle_row (q : quat) (max_angle u : R) (v : vec3) : num quat :=
  let cos_theta := cos (max_angle / 2) in
  let cos_phi := (1 - u) + u * cos_theta in
  sin_phi <~ torch_sqrt (1 - cos_phi ^ 2) ;;
  v <~ normalize v ;;
  let local_quat := local_quat cos_phi sin_phi v in
  ret (quat_mul q local_quat).

(** [sample_quat_within_angle(center_q, max_angle)]: [center_q] has one
    reference per row, and row [i] uses its own draws. *)
Definition sample_quat_within_angle
    (center_q : list quat) (max_angle : R)
    (rand : nat -> R) (randn : nat -> vec3) : list (num quat) :=
  imap (fun i q => within_angle_row q max_angle (rand i) (randn i)) center_q.

(** [sample_quat_within_rot_angle(center_q, max_angle, num_samples)]:
    one reference, [center_q.expand(num_samples, 4)]. *)
Definition sample_quat_within_rot_angle
    (center_q : quat) (max_angle : R) (num_samples : nat)
    (rand : nat -> R) (randn : nat -> vec3) : list (num quat) :=
  imap (fun i q => within_rot_angle_row q max_angle (rand i) (randn i))
       (replicate num_samples center_q).

End Sampler.

Import Sampler.

(** ** Python exceptions *)

Module Py.

Inductive exception : Type :=
  | KeyError       (* a name that is not in the scene *)
  | IndexError     (* an environment index out of range *)
  | RuntimeError.  (* torch: tensor sizes that do not match *)

Definition result (A : Type) : Type := exception + A.

(** Advanced indexing [t[env_ids]]: a fresh tensor holding the selected
    rows; an index past the end raises. *)
Definition index_rows {A} (t : list A) (env_ids : list nat) : result (list A) :=
  match mapM (fun i => t !! i) env_ids with
  | Some rows => inr rows
  | None => inl IndexError
  end.

(** Column slice [t[:, a:b]] of one row. *)
Definition slice (a b : nat) (row : list R) : list R :=
  take (b - a) (drop a row).

(** Element-wise sum of two tensors of the same shape. *)
Definition tensor_add (s t : list (list R)) : list (list R) :=
  zip_with (zip_with Rplus) s t.

End Py.

Import Py.

(** ** Range-based uniform resampling *)

Module Resampler.

(** [m.get(key, (0.0, 0.0))] on a [dict[str, tuple[float, float]]]. *)
Definition get_range (m : gmap string (R * R)) (key : string) : R * R :=
  default (0, 0) (m !! key).

(** [[m.get(key, (0.0, 0.0)) for key in keys]] *)
Definition range_list (m : gmap string (R * R)) (keys : list string) : list (R * R) :=
  get_range m <$> keys.

(** [ranges[:,0]] and [ranges[:,1]] of [ranges = torch.tensor(range_list)]. *)
Definition lows (ranges : list (R * R)) : list R := fst <$> ranges.

Definition highs (ranges : list (R * R)) : list R := snd <$> ranges.

(** Modelled from the spec: [isaaclab.utils.math.sample_uniform] is not
    among the sources.  Spec 4.2: from k intervals and a count N, an
    (N x k) tensor whose column i is drawn uniformly from
    [low_i, high_i], independently per row and column; the draw is the
    affine image [r * (high - low) + low] of an entry [r] of
    [torch.rand(N, k)], which lies in [0, 1).  Spec 7: a shape mismatch
    surfaces as an immediate fault, so bounds that do not give one
    interval per requested column raise. *)
Definition sample_uniform (lower upper : list R) (size : nat * nat)
    (rand : nat -> nat -> R) : result (list (list R)) :=
  let '(n, k) := size in
  if decide (length lower = k /\ length upper = k) then
    inr ((fun i =>
            imap (fun j '(lo, hi) => rand i j * (hi - lo) + lo)
                 (zip lower upper))
         <$> seq 0 n)
  else inl RuntimeError.

Definition test_dict_keys : list string :=
  ["x"; "y"; "z"; "max_radian"]%string.

(** [test_dict(env_ids, pose_range)] (lines 57-65).  The function
    prints [range_list], the same data as the tensor [ranges], and
    [rand_samples]; the model returns what is printed. *)
Definition test_dict (env_ids : list nat) (pose_range : gmap string (R * R))
    (rand : nat -> nat -> R) : result (list (R * R) * list (list R)) :=
  let range_list := range_list pose_range test_dict_keys in
  let ranges := range_list in
  match sample_uniform (lows ranges) (highs ranges) (length env_ids, 4%nat) rand with
  | inl e => inl e
  | inr rand_samples => inr (range_list, rand_samples)
  end.

End Resampler.

Import Resampler.

(** ** The reset event *)

Module Reset.

(** A pose row is [torch.cat([positions, orientations], dim=-1)]: three
    position columns followed by the quaternion of the row, which is
    undefined where the sampler divided by zero. *)
Definition pose : Type := list R * num quat.

(** Modelled from the spec: the asset classes are not among the sources.
    Spec 4.2 describes the sink as accepting a batch of poses or
    velocities with an index set and committing them to the physics
    state; the committed batches are kept in call order. *)
Inductive sim_write : Type :=
  | RootPose (poses : list pose) (env_ids : list nat)
  | RootVelocity (velocities : list (list R)) (env_ids : list nat).

(** [asset.data.default_root_state] has one row of 13 columns per
    environment: position 0:3, quaternion 3:7, velocity 7:13. *)
Record Asset : Type := {
  default_root_state : list (list R);
  sim_writes : list sim_write
}.

Record Scene : Type := {
  assets : gmap string Asset;
  env_origins : list (list R)
}.

Record ManagerBasedEnv : Type := { scene : Scene }.

(** The four generator calls of the event, in source order. *)
Record Draws : Type := {
  pos_rand : nat -> nat -> R;   (* rand of line 118, shape (N, 3) *)
  quat_rand : nat -> R;         (* rand of line 86 *)
  quat_randn : nat -> vec3;     (* randn of line 91 *)
  vel_rand : nat -> nat -> R    (* rand of line 122, shape (N, 6) *)
}.

(** Computations that read and write the environment and may raise. *)
Definition M (A : Type) : Type :=
  ManagerBasedEnv -> result A * ManagerBasedEnv.

Definition mret {A} (a : A) : M A := fun env => (inr a, env).

Definition mbind {A B} (m : M A) (k : A -> M B) : M B :=
  fun env =>
    match m env with
    | (inl e, env') => (inl e, env')
    | (inr a, env') => k a env'
    end.

Definition lift {A} (r : result A) : M A := fun env => (r, env).

(** [env.scene[name]] *)
Definition get_asset (name : string) : M Asset :=
  fun env =>
    match assets (scene env) !! name with
    | Some asset => (inr asset, env)
    | None => (inl KeyError, env)
    end.

(** [env.scene.env_origins[env_ids]] *)
Definition get_env_origins (env_ids : list nat) : M (list (list R)) :=
  fun env => (index_rows (env_origins (scene env)) env_ids, env).

Definition commit (w : sim_write) (asset : Asset) : Asset :=
  {| default_root_state := default_root_state asset;
     sim_writes := sim_writes asset ++ [w] |}.

Definition update_asset (name : string) (f : Asset -> Asset) : M unit :=
  fun env =>
    (inr tt,
     {| scene := {| assets := alter f name (assets (scene env));
                    env_origins := env_origins (scene env) |} |}).

(** [asset.write_root_pose_to_sim(poses, env_ids=env_ids)]; the asset is
    the object stored in the scene under [name]. *)
Definition write_root_pose_to_sim (name : string) (poses : list pose)
    (env_ids : list nat) : M unit :=
  update_asset name (commit (RootPose poses env_ids)).

(** [asset.write_root_velocity_to_sim(velocities, env_ids=env_ids)] *)
Definition write_root_velocity_to_sim (name : string)
    (velocities : list (list R)) (env_ids : list nat) : M unit :=
  update_asset name (commit (RootVelocity velocities env_ids)).

(** A row of [root_states[:, 3:7]] as a quaternion. *)
Definition quat_of_row (row : list R) : quat :=
  Quat (nth 0 row 0) (nth 1 row 0) (nth 2 row 0) (nth 3 row 0).

(** Line 114. *)
Definition xyz_pos_ranges (position_range : gmap string (R * R)) : list (R * R) :=
  range_list position_range ["x"; "y"; "z"]%string.

(** Lines 115-116. *)
Definition xyz_vel_ranges (velocity_range : gmap string (R * R)) : list (R * R) :=
  range_list velocity_range ["x"; "y"; "z"; "roll"; "pitch"; "yaw"]%string.

(** Lines 118-119. *)
Definition xyz_pos_rand_samples (xyz_pos_ranges : list (R * R))
    (env_ids : list nat) (rand : nat -> nat -> R) : result (list (list R)) :=
  sample_uniform (lows xyz_pos_ranges) (highs xyz_pos_ranges)
                 (length env_ids, 3%nat) rand.

(** Lines 122-123: the bounds passed are those of [xyz_pos_ranges], for
    a requested shape of (N, 6). *)
Definition xyzrpy_vel_rand_samples (xyz_pos_ranges : list (R * R))
    (env_ids : list nat) (rand : nat -> nat -> R) : result (list (list R)) :=
  sample_uniform (lows xyz_pos_ranges) (highs xyz_pos_ranges)
                 (length env_ids, 6%nat) rand.

(** Line 125. *)
Definition positions (root_states env_origins xyz_pos_rand_samples : list (list R))
    : list (list R) :=
  tensor_add (tensor_add (slice 0 3 <$> root_states) env_origins)
             xyz_pos_rand_samples.

(** Line 128. *)
Definition velocities (root_states xyzrpy_vel_rand_samples : list (list R))
    : list (list R) :=
  tensor_add (slice 7 13 <$> root_states) xyzrpy_vel_rand_samples.

End Reset.

Import Reset.

Notation "x <- m ;; k" := (Reset.mbind m (fun x => k))
  (at level 100, m at next level, right associativity).

(** [reset_root_state_clamped_angular_distance] (lines 101-129).  The
    environment is the state of [M]; [asset_cfg] is the name held by the
    [SceneEntityCfg]. *)
Definition reset_root_state_clamped_angular_distance
    (env_ids : list nat)
    (position_range velocity_range : gmap string (R * R))
    (max_radian : R) (asset_cfg : string) (rng : Draws) : M unit :=
  asset <- get_asset asset_cfg ;;
  root_states <- lift (index_rows (default_root_state asset) env_ids) ;;
  let xyz_pos_ranges := xyz_pos_ranges position_range in
  let xyz_vel_ranges := xyz_vel_ranges velocity_range in
  xyz_pos_rand_samples <-
    lift (xyz_pos_rand_samples xyz_pos_ranges env_ids (pos_rand rng)) ;;
  let orientations :=
    sample_quat_within_angle (quat_of_row <$> (slice 3 7 <$> root_states))
                             max_radian (quat_rand rng) (quat_randn rng) in
  xyzrpy_vel_rand_samples <-
    lift (xyzrpy_vel_rand_samples xyz_pos_ranges env_ids (vel_rand rng)) ;;
  env_origins <- get_env_origins env_ids ;;
  let positions := positions root_states env_origins xyz_pos_rand_samples in
  _ <- write_root_pose_to_sim asset_cfg (zip positions orientations) env_ids ;;
  let velocities := velocities root_states xyzrpy_vel_rand_samples in
  write_root_velocity_to_sim asset_cfg velocities env_ids.

(** The asset name of the default [SceneEntityCfg("robot")]. *)
Definition default_asset_cfg : string := "robot".


(** ** Predicates used in the statements *)

(** Every reference of a batch has unit norm. *)
Definition unit_rows (center_q : list quat) : Prop :=
  Forall (fun q => quat_norm q = 1) center_q.

(** Contract of [torch.rand]: entries in [0, 1). *)
Definition rand_contract (rand : nat -> R) : Prop :=
  forall i, 0 <= rand i < 1.

Definition rand2_contract (rand : nat -> nat -> R) : Prop :=
  forall i j, 0 <= rand i j < 1.

(** No row of the [randn] draw is the zero vector. *)
Definition nonzero_rows (randn : nat -> vec3) : Prop :=
  forall i, randn i <> vec3_zero.

(** An entry [x] of the column of [key] against the mapping [m]: zero
    for an absent key, between the two bounds for a present one. *)
Definition entry_in_range (m : gmap string (R * R)) (key : string) (x : R) : Prop :=
  match m !! key with
  | None => x = 0
  | Some (lo, hi) =>
      Rmin lo hi <= x <= Rmax lo hi /\ (lo <= hi -> lo <= x <= hi)
  end.

(** A sample of shape (n, |keys|) whose column [j] agrees with the
    interval that [m] gives to [keys[j]]. *)
Definition columns_in_range (m : gmap string (R * R)) (keys : list string)
    (n : nat) (samples : list (list R)) : Prop :=
  length samples = n /\
  forall i row, samples !! i = Some row ->
    length row = length keys /\
    forall j key x, keys !! j = Some key -> row !! j = Some x ->
      entry_in_range m key x.

(** What an asset keeps across an event: its default root state, and
    the batches already committed to the simulation. *)
Definition asset_frame (a a' : Asset) : Prop :=
  default_root_state a' = default_root_state a /\
  sim_writes a `prefix_of` sim_writes a'.

(** [env'] differs from [env] at most by batches appended to the
    simulation sinks of its assets. *)
Definition env_frame (env env' : ManagerBasedEnv) : Prop :=
  env_origins (scene env') = env_origins (scene env) /\
  forall name,
    option_Forall2 asset_frame (assets (scene env) !! name)
                               (assets (scene env') !! name).

Definition frames {A} (m : M A) : Prop :=
  forall env, env_frame env (snd (m env)).

(** The direction of a non-zero draw. *)
Definition direction (v : vec3) : vec3 :=
  Vec3 (vx v / vec3_norm v) (vy v / vec3_norm v) (vz v / vec3_norm v).

(** ** Concrete inputs *)

Definition unit_x : vec3 := Vec3 1 0 0.

(** One environment, one asset "robot" at the origin with the identity
    orientation and no velocity; nothing committed yet. *)
Definition robot0 : Asset :=
  {| default_root_state := [[0; 0; 0; 1; 0; 0; 0; 0; 0; 0; 0; 0; 0]];
     sim_writes := [] |}.

Definition env0 : ManagerBasedEnv :=
  {| scene := {| assets := {[ "robot"%string := robot0 ]};
                 env_origins := [[0; 0; 0]] |} |}.

Definition rng0 : Draws :=
  {| pos_rand := fun _ _ => 0;
     quat_rand := fun _ => 0;
     quat_randn := fun _ => unit_x;
     vel_rand := fun _ _ => 0 |}.

Definition position_range0 : gmap string (R * R) :=
  {[ "x"%string := (-1, 1) ]}.

Definition velocity_range0 : gmap string (R * R) :=
  {[ "x"%string := (5, 6) ]}.

(** ** Further notions for the statements *)

(** The antipode [-q], which stands for the same rotation as [q]. *)
Definition quat_neg (q : quat) : quat :=
  Quat (- qw q) (- qx q) (- qy q) (- qz q).

Definition quat_conjugate (q : quat) : quat :=
  Quat (qw q) (- qx q) (- qy q) (- qz q).

Definition vec3_scale (k : R) (v : vec3) : vec3 :=
  Vec3 (k * vx v) (k * vy v) (k * vz v).

(** Two mappings that give the same answer on every key of a list. *)
Definition agree_on (keys : list string) (m m' : gmap string (R * R)) : Prop :=
  Forall (fun key => m !! key = m' !! key) keys.

(** Every index of [env_ids] selects a row of a tensor of [n] rows. *)
Definition in_range (n : nat) (env_ids : list nat) : Prop :=
  Forall (fun i => (i < n)%nat) env_ids.

(** ** Task registration
    ([isaaclab_tasks/.../velocity/config/g1_trunk/__init__.py]) *)

Module Registration.

(** The arguments of one [gym.register] call. *)
Record EnvSpec : Type := {
  id : string;
  entry_point : string;
  disable_env_checker : bool;
  kwargs : gmap string string
}.

(** The dictionary literal passed as [kwargs]. *)
Definition make_kwargs (env_cfg rsl_rl_cfg skrl_cfg : string) : gmap string string :=
  <[ "env_cfg_entry_point"%string := env_cfg ]>
  (<[ "rsl_rl_cfg_entry_point"%string := rsl_rl_cfg ]>
  (<[ "skrl_cfg_entry_point"%string := skrl_cfg ]> ∅)).

(** The [gym.register] calls made when the module is imported, in
    source order.  [name] is [__name__] and [agents_name] is
    [agents.__name__]; an f-string appends its literal text to them. *)
Definition registrations (name agents_name : string) : list EnvSpec :=
  [ {| id := "Isaac-Velocity-Rough-G1-trunk-v0";
       entry_point := "isaaclab.envs:ManagerBasedRLEnv";
       disable_env_checker := true;
       kwargs := make_kwargs
         (name +:+ ".rough_env_cfg:G1TrunkEnvCfg")
         (agents_name +:+ ".rsl_rl_ppo_cfg:G1TrunkRoughPPORunnerCfg")
         (agents_name +:+ ":skrl_rough_ppo_cfg.yaml") |};
    {| id := "Isaac-Velocity-Rough-G1-trunk-Play-v0";
       entry_point := "isaaclab.envs:ManagerBasedRLEnv";
       disable_env_checker := true;
       kwargs := make_kwargs
         (name +:+ ".rough_env_cfg:G1TrunkRoughEnvCfg_PLAY")
         (agents_name +:+ ".rsl_rl_ppo_cfg:G1TrunkRoughPPORunnerCfg")
         (agents_name +:+ ":skrl_rough_ppo_cfg.yaml") |};
    {| id := "Isaac-Velocity-Rough-G1-trunk-v1";
       entry_point := "isaaclab.envs:ManagerBasedRLEnv";
       disable_env_checker := true;
       kwargs := make_kwargs
         (name +:+ ".rough_env_cfg:G1TrunkEnvCfgV2")
         (agents_name +:+ ".rsl_rl_ppo_cfg:G1TrunkRoughPPORunnerCfg")
         (agents_name +:+ ":skrl_rough_ppo_cfg.yaml") |};
    {| id := "Isaac-Velocity-Rough-G1-trunk-Play-v1";
       entry_point := "isaaclab.envs:ManagerBasedRLEnv";
       disable_env_checker := true;
       kwargs := make_kwargs
         (name +:+ ".rough_env_cfg:G1TrunkRoughEnvCfgV2_PLAY")
         (agents_name +:+ ".rsl_rl_ppo_cfg:G1TrunkRoughPPORunnerCfg")
         (agents_name +:+ ":skrl_rough_ppo_cfg.yaml") |};
    {| id := "Isaac-Velocity-Flat-G1-trunk-v0";
       entry_point := "isaaclab.envs:ManagerBasedRLEnv";
       disable_env_checker := true;
       kwargs := make_kwargs
         (name +:+ ".flat_env_cfg:G1TrunkFlatEnvCfgV1")
         (agents_name +:+ ".rsl_rl_ppo_cfg:G1TrunkFlatPPORunnerCfg")
         (agents_name +:+ ":skrl_flat_ppo_cfg.yaml") |};
    {| id := "Isaac-Velocity-Flat-G1-trunk-Play-v0";
       entry_point := "isaaclab.envs:ManagerBasedRLEnv";
       disable_env_checker := true;
       kwargs := make_kwargs
         (name +:+ ".flat_env_cfg:G1TrunkFlatEnvCfgV1_PLAY")
         (agents_name +:+ ".rsl_rl_ppo_cfg:G1TrunkFlatPPORunnerCfg")
         (agents_name +:+ ":skrl_flat_ppo_cfg.yaml") |} ]%string.

(** What a registration stores under a key of [kwargs]. *)
Definition kwarg (key : string) (spec : EnvSpec) : option string :=
  kwargs spec !! key.

End Registration.

(** ** Facts on quaternions *)

Lemma quat_norm2_nonneg (q : quat) : 0 <= quat_norm2 q.
Proof. unfold quat_norm2. nra. Qed.

Lemma quat_norm_unit_iff (q : quat) : quat_norm q = 1 <-> quat_norm2 q = 1.
Proof.
  unfold quat_norm. split; intros H.
  - rewrite <- (sqrt_sqrt (quat_norm2 q)) by apply quat_norm2_nonneg.
    rewrite H. lra.
  - rewrite H. apply sqrt_1.
Qed.

Lemma quat_norm2_mul (p q : quat) :
  quat_norm2 (quat_mul p q) = quat_norm2 p * quat_norm2 q.
Proof. unfold quat_norm2, quat_mul. simpl. ring. Qed.

Lemma quat_dot_mul (p q : quat) :
  quat_dot p (quat_mul p q) = quat_norm2 p * qw q.
Proof. unfold quat_dot, quat_norm2, quat_mul. simpl. ring. Qed.

Lemma quat_mul_identity_r (q : quat) : quat_mul q quat_identity = q.
Proof.
  destruct q as [w x y z]. unfold quat_mul, quat_identity. simpl.
  f_equal; ring.
Qed.

(** ** Facts on the scalar steps *)

Lemma cos_phi_le_1 (max_angle u : R) : 0 <= u -> cos_phi max_angle u <= 1.
Proof.
  intros Hu. unfold cos_phi.
  pose proof (COS_bound (max_angle / 2)) as [_ Hc]. nra.
Qed.

Lemma cos_phi_ge_cos (max_angle u : R) :
  u <= 1 -> cos (max_angle / 2) <= cos_phi max_angle u.
Proof.
  intros Hu. unfold cos_phi.
  pose proof (COS_bound (max_angle / 2)) as [_ Hc]. nra.
Qed.

Lemma cos_phi_bounds (max_angle u : R) :
  0 <= u <= 1 -> -1 <= cos_phi max_angle u <= 1.
Proof.
  intros [H0 H1]. split.
  - pose proof (COS_bound (max_angle / 2)) as [Hc _].
    pose proof (cos_phi_ge_cos max_angle u H1). lra.
  - now apply cos_phi_le_1.
Qed.

Lemma radicand_nonneg (max_angle u : R) :
  0 <= u <= 1 -> 0 <= 1 - cos_phi max_angle u ^ 2.
Proof. intros Hu. pose proof (cos_phi_bounds max_angle u Hu). nra. Qed.

Lemma sin_phi_defined (max_angle u : R) :
  0 <= u <= 1 ->
  sin_phi max_angle u = inr (sqrt (1 - cos_phi max_angle u ^ 2)).
Proof.
  intros Hu. unfold sin_phi, torch_sqrt.
  destruct (Rle_dec 0 (1 - cos_phi max_angle u ^ 2)) as [_ | Hn]; [reflexivity |].
  exfalso. apply Hn. now apply radicand_nonneg.
Qed.

Lemma vec3_norm_zero_iff (v : vec3) : vec3_norm v = 0 <-> v = vec3_zero.
Proof.
  unfold vec3_norm, vec3_zero. split.
  - intros H. apply sqrt_eq_0 in H; [| nra].
    destruct v as [x y z]. simpl in H.
    assert (x = 0) by nra. assert (y = 0) by nra. assert (z = 0) by nra.
    subst. reflexivity.
  - intros ->. cbn [vx vy vz].
    replace (0 ^ 2 + 0 ^ 2 + 0 ^ 2) with 0 by ring. apply sqrt_0.
Qed.

Lemma normalize_zero : normalize vec3_zero = inl DivisionByZero.
Proof.
  unfold normalize, torch_div.
  destruct (Req_dec_T (vec3_norm vec3_zero) 0) as [_ | Hn]; [reflexivity |].
  exfalso. apply Hn. now apply vec3_norm_zero_iff.
Qed.

Lemma normalize_nonzero (v : vec3) :
  v <> vec3_zero ->
  normalize v = inr (direction v).
Proof.
  intros Hv. unfold normalize, torch_div.
  destruct (Req_dec_T (vec3_norm v) 0) as [H0 | _]; [| reflexivity].
  exfalso. apply Hv. now apply vec3_norm_zero_iff.
Qed.

Lemma direction_unit (v : vec3) :
  v <> vec3_zero ->
  vx (direction v) ^ 2 + vy (direction v) ^ 2 + vz (direction v) ^ 2 = 1.
Proof.
  intros Hv. unfold direction. cbn [vx vy vz].
  assert (Hn : vec3_norm v <> 0) by (intros H; now apply Hv, vec3_norm_zero_iff).
  assert (Hsq : vec3_norm v * vec3_norm v = vx v ^ 2 + vy v ^ 2 + vz v ^ 2).
  { unfold vec3_norm. apply sqrt_sqrt. nra. }
  field_simplify_eq; [| exact Hn]. nra.
Qed.

Lemma normalize_div_by_zero_iff (v : vec3) :
  normalize v = inl DivisionByZero <-> v = vec3_zero.
Proof.
  split.
  - intros H. destruct (vec3_norm_zero_iff v) as [Hz _]. apply Hz.
    unfold normalize, torch_div in H.
    destruct (Req_dec_T (vec3_norm v) 0) as [H0 | Hn]; [exact H0 | discriminate H].
  - intros ->. apply normalize_zero.
Qed.

(** ** Facts on one row of the samplers *)

Lemma within_rot_angle_row_eq (q : quat) (max_angle u : R) (v : vec3) :
  within_rot_angle_row q max_angle u v = within_angle_row q max_angle u v.
Proof. reflexivity. Qed.

Lemma within_angle_row_defined (q : quat) (max_angle u : R) (v : vec3) :
  0 <= u <= 1 -> v <> vec3_zero ->
  within_angle_row q max_angle u v =
    inr (quat_mul q (local_quat (cos_phi max_angle u)
                                (sqrt (1 - cos_phi max_angle u ^ 2))
                                (direction v))).
Proof.
  intros Hu Hv. unfold within_angle_row.
  rewrite (sin_phi_defined _ _ Hu). cbn [Torch.bind].
  rewrite (normalize_nonzero _ Hv). reflexivity.
Qed.

Lemma within_angle_row_zero_draw (q : quat) (max_angle u : R) :
  0 <= u <= 1 -> within_angle_row q max_angle u vec3_zero = inl DivisionByZero.
Proof.
  intros Hu. unfold within_angle_row.
  rewrite (sin_phi_defined _ _ Hu). cbn [Torch.bind].
  rewrite normalize_zero. reflexivity.
Qed.

Lemma local_quat_norm2 (c s : R) (d : vec3) :
  c ^ 2 + s ^ 2 = 1 ->
  vx d ^ 2 + vy d ^ 2 + vz d ^ 2 = 1 ->
  quat_norm2 (local_quat c s d) = 1.
Proof.
  intros Hcs Hd. unfold quat_norm2, local_quat. cbn [qw qx qy qz].
  replace (c ^ 2 + (s * vx d) ^ 2 + (s * vy d) ^ 2 + (s * vz d) ^ 2)
    with (c ^ 2 + s ^ 2 * (vx d ^ 2 + vy d ^ 2 + vz d ^ 2)) by ring.
  rewrite Hd. lra.
Qed.

Lemma cos_sin_phi_square (max_angle u : R) :
  0 <= u <= 1 ->
  cos_phi max_angle u ^ 2 + sqrt (1 - cos_phi max_angle u ^ 2) ^ 2 = 1.
Proof.
  intros Hu. pose proof (radicand_nonneg max_angle u Hu) as Hr.
  replace (sqrt (1 - cos_phi max_angle u ^ 2) ^ 2)
    with (sqrt (1 - cos_phi max_angle u ^ 2) * sqrt (1 - cos_phi max_angle u ^ 2))
    by ring.
  rewrite (sqrt_sqrt _ Hr). ring.
Qed.

Lemma quat_mul_unit (p q : quat) :
  quat_norm p = 1 -> quat_norm q = 1 -> quat_norm (quat_mul p q) = 1.
Proof.
  rewrite !quat_norm_unit_iff, quat_norm2_mul. intros -> ->. ring.
Qed.

Lemma within_angle_row_unit (q : quat) (max_angle u : R) (v : vec3) :
  quat_norm q = 1 -> 0 <= u <= 1 -> v <> vec3_zero ->
  exists out, within_angle_row q max_angle u v = inr out /\ quat_norm out = 1.
Proof.
  intros Hq Hu Hv. eexists. split.
  - now apply within_angle_row_defined.
  - apply quat_mul_unit; [exact Hq |].
    apply quat_norm_unit_iff, local_quat_norm2.
    + now apply cos_sin_phi_square.
    + now apply direction_unit.
Qed.

(** ** Facts on the batches *)

Lemma within_angle_lookup (center_q : list quat) (max_angle : R)
    (rand : nat -> R) (randn : nat -> vec3) (i : nat) :
  sample_quat_within_angle center_q max_angle rand randn !! i =
    (fun q => within_angle_row q max_angle (rand i) (randn i)) <$> center_q !! i.
Proof. unfold sample_quat_within_angle. apply list_lookup_imap. Qed.

Lemma within_rot_angle_lookup (center_q : quat) (max_angle : R) (n : nat)
    (rand : nat -> R) (randn : nat -> vec3) (i : nat) :
  (i < n)%nat ->
  sample_quat_within_rot_angle center_q max_angle n rand randn !! i =
    Some (within_angle_row center_q max_angle (rand i) (randn i)).
Proof.
  intros Hi. unfold sample_quat_within_rot_angle.
  rewrite list_lookup_imap, (lookup_replicate_2 _ _ _ Hi). reflexivity.
Qed.

Lemma within_angle_length (center_q : list quat) (max_angle : R)
    (rand : nat -> R) (randn : nat -> vec3) :
  length (sample_quat_within_angle center_q max_angle rand randn) = length center_q.
Proof. unfold sample_quat_within_angle. apply length_imap. Qed.

Lemma within_rot_angle_length (center_q : quat) (max_angle : R) (n : nat)
    (rand : nat -> R) (randn : nat -> vec3) :
  length (sample_quat_within_rot_angle center_q max_angle n rand randn) = n.
Proof.
  unfold sample_quat_within_rot_angle. now rewrite length_imap, length_replicate.
Qed.

(** ** The square root of step 3 *)

(** C9.  For every [u] in [0, 1] and every [max_angle], the value
    [cos_phi = (1-u) + u*cos(max_angle/2)] lies in [-1, 1], so the
    argument [1 - cos_phi^2] of the square root is not negative and the
    unclamped [sqrt] of the source is defined: neither sampler row ever
    takes the square root of a negative number. *)
Theorem sqrt_argument_nonnegative (max_angle u : R) :
  0 <= u <= 1 ->
  -1 <= cos_phi max_angle u <= 1 /\
  0 <= 1 - cos_phi max_angle u ^ 2 /\
  sin_phi max_angle u = inr (sqrt (1 - cos_phi max_angle u ^ 2)) /\
  forall q v,
    within_angle_row q max_angle u v <> inl SqrtOfNegative /\
    within_rot_angle_row q max_angle u v <> inl SqrtOfNegative.
Proof.
  intros Hu. split; [now apply cos_phi_bounds |].
  split; [now apply radicand_nonneg |].
  split; [now apply sin_phi_defined |].
  intros q v.
  assert (H : within_angle_row q max_angle u v <> inl SqrtOfNegative).
  { destruct (vec3_norm_zero_iff v) as [_ Hz].
    destruct (Req_dec_T (vec3_norm v) 0) as [H0 | Hn].
    - apply vec3_norm_zero_iff in H0. subst v.
      rewrite (within_angle_row_zero_draw _ _ _ Hu). discriminate.
    - rewrite (within_angle_row_defined q _ _ v Hu); [discriminate |].
      intros Hv. apply Hn, Hz, Hv. }
  split; exact H.
Qed.

Lemma sqrt_argument_nonnegative_witness :
  0 <= 1 - cos_phi PI (1 / 2) ^ 2.
Proof.
  assert (Hu : 0 <= 1 / 2 <= 1) by lra.
  exact (proj1 (proj2 (sqrt_argument_nonnegative PI (1 / 2) Hu))).
Defined.

(** ** The interval of step 2 *)

Lemma cos_phi_two_pi (u : R) : cos_phi (2 * PI) u = 1 - 2 * u.
Proof.
  unfold cos_phi. replace (2 * PI / 2) with PI by field.
  rewrite cos_PI. ring.
Qed.

(** C5.  Step 2 computes [cos_phi = (1-u) + u*cos(max_angle/2)]; for
    every [u] in [0, 1) and every [max_angle] it lies in
    [[cos(max_angle/2), 1]].  For [max_angle = 2*PI] the bound is
    [cos(PI) = -1] and the values range over the whole of [-1, 1]: they
    stay inside it, every point of (-1, 1] is the value at some [u] in
    [0, 1), and every point of [-1, 1] is approached within any
    tolerance. *)
Theorem cos_phi_interval (max_angle u : R) :
  0 <= u < 1 ->
  cos_phi max_angle u = (1 - u) + u * cos (max_angle / 2) /\
  cos (max_angle / 2) <= cos_phi max_angle u <= 1 /\
  cos (2 * PI / 2) = -1 /\
  -1 <= cos_phi (2 * PI) u <= 1 /\
  (forall c, -1 < c <= 1 ->
     exists u', 0 <= u' < 1 /\ cos_phi (2 * PI) u' = c) /\
  (forall c eps, -1 <= c <= 1 -> 0 < eps ->
     exists u', 0 <= u' < 1 /\ Rabs (cos_phi (2 * PI) u' - c) < eps).
Proof.
  intros [H0 H1]. split; [reflexivity |].
  split.
  { split; [apply cos_phi_ge_cos | apply cos_phi_le_1]; lra. }
  split.
  { replace (2 * PI / 2) with PI by field. apply cos_PI. }
  split.
  { rewrite cos_phi_two_pi. lra. }
  split.
  - intros c Hc. exists ((1 - c) / 2). rewrite cos_phi_two_pi.
    split; [lra | field].
  - intros c eps Hc Heps.
    destruct (Rlt_le_dec (-1) c) as [Hlt | Hle].
    + exists ((1 - c) / 2). rewrite cos_phi_two_pi. split; [lra |].
      replace (1 - 2 * ((1 - c) / 2) - c) with 0 by field.
      rewrite Rabs_R0. exact Heps.
    + assert (c = -1) by lra. subst c.
      exists (1 - Rmin eps 1 / 4).
      pose proof (Rmin_l eps 1). pose proof (Rmin_r eps 1).
      assert (0 < Rmin eps 1) by (apply Rmin_glb_lt; lra).
      rewrite cos_phi_two_pi. split; [lra |].
      replace (1 - 2 * (1 - Rmin eps 1 / 4) - -1) with (Rmin eps 1 / 2) by field.
      rewrite Rabs_pos_eq; lra.
Qed.

Lemma cos_phi_interval_witness :
  cos (PI / 2) <= cos_phi PI (1 / 2) <= 1.
Proof.
  assert (Hu : 0 <= 1 / 2 < 1) by lra.
  exact (proj1 (proj2 (cos_phi_interval PI (1 / 2) Hu))).
Defined.

(** ** Unit norm of the output *)

(** C3.  For unit-norm references, any [max_angle], draws [u] of
    [torch.rand] and non-zero direction draws [v], every row returned by
    [sample_quat_within_angle] and by [sample_quat_within_rot_angle] has
    unit norm: the local quaternion [(cos_phi, sin_phi * v/|v|)] has
    unit norm, and so has the product of two unit quaternions. *)
Theorem samplers_unit_norm (center_q : list quat) (q0 : quat) (num_samples : nat)
    (max_angle : R) (rand : nat -> R) (randn : nat -> vec3) :
  unit_rows center_q -> quat_norm q0 = 1 ->
  rand_contract rand -> nonzero_rows randn ->
  (forall i q, center_q !! i = Some q ->
     exists s vhat out,
       sin_phi max_angle (rand i) = inr s /\
       normalize (randn i) = inr vhat /\
       quat_norm (local_quat (cos_phi max_angle (rand i)) s vhat) = 1 /\
       sample_quat_within_angle center_q max_angle rand randn !! i
         = Some (inr out) /\
       quat_norm out = 1) /\
  (forall i, (i < num_samples)%nat ->
     exists out,
       sample_quat_within_rot_angle q0 max_angle num_samples rand randn !! i
         = Some (inr out) /\
       quat_norm out = 1) /\
  (forall p r, quat_norm p = 1 -> quat_norm r = 1 ->
     quat_norm (quat_mul p r) = 1).
Proof.
  intros Hunit Hq0 Hrand Hrandn.
  assert (Hu : forall i, 0 <= rand i <= 1).
  { intros i. destruct (Hrand i). lra. }
  split; [| split].
  - intros i q Hi.
    exists (sqrt (1 - cos_phi max_angle (rand i) ^ 2)), (direction (randn i)).
    eexists. split; [now apply sin_phi_defined |].
    split; [now apply normalize_nonzero |].
    assert (Hloc : quat_norm (local_quat (cos_phi max_angle (rand i))
                     (sqrt (1 - cos_phi max_angle (rand i) ^ 2))
                     (direction (randn i))) = 1).
    { apply quat_norm_unit_iff, local_quat_norm2.
      - apply cos_sin_phi_square, Hu.
      - apply direction_unit, Hrandn. }
    split; [exact Hloc |].
    split.
    + rewrite within_angle_lookup, Hi. cbn [fmap option_fmap option_map].
      rewrite (within_angle_row_defined _ _ _ _ (Hu i) (Hrandn i)). reflexivity.
    + apply quat_mul_unit; [| exact Hloc].
      exact (Forall_lookup_1 _ _ _ _ Hunit Hi).
  - intros i Hi.
    destruct (within_angle_row_unit q0 max_angle (rand i) (randn i) Hq0 (Hu i) (Hrandn i))
      as (out & Hout & Hnorm).
    exists out. split; [| exact Hnorm].
    rewrite (within_rot_angle_lookup _ _ _ _ _ _ Hi), Hout. reflexivity.
  - apply quat_mul_unit.
Qed.

Lemma quat_identity_unit : quat_norm quat_identity = 1.
Proof.
  apply quat_norm_unit_iff. unfold quat_norm2, quat_identity.
  cbn [qw qx qy qz]. ring.
Defined.

Lemma unit_x_nonzero : unit_x <> vec3_zero.
Proof.
  unfold unit_x, vec3_zero. intros H.
  assert (H1 : vx (Vec3 1 0 0) = vx (Vec3 0 0 0)) by (rewrite H; reflexivity).
  cbn [vx] in H1. lra.
Defined.

Lemma samplers_unit_norm_witness :
  exists out,
    sample_quat_within_rot_angle quat_identity (PI / 18) 3
      (fun _ => 1 / 2) (fun _ => unit_x) !! 0%nat = Some (inr out) /\
    quat_norm out = 1.
Proof.
  assert (H1 : unit_rows [quat_identity]).
  { constructor; [exact quat_identity_unit | constructor]. }
  assert (H2 : rand_contract (fun _ => 1 / 2)) by (intros i; lra).
  assert (H3 : nonzero_rows (fun _ => unit_x)) by (intros i; exact unit_x_nonzero).
  assert (H4 : (0 < 3)%nat) by (repeat constructor).
  exact (proj1 (proj2 (samplers_unit_norm [quat_identity] quat_identity 3
                         (PI / 18) _ _ H1 quat_identity_unit H2 H3)) 0%nat H4).
Defined.

(** ** The angular bound *)

Lemma acos_antitone (x y : R) :
  -1 <= x -> x <= y -> y <= 1 -> acos y <= acos x.
Proof.
  intros Hx Hxy Hy.
  destruct (Rle_lt_dec (acos y) (acos x)) as [H | H]; [exact H | exfalso].
  pose proof (acos_bound x) as [Hx0 Hx1].
  pose proof (acos_bound y) as [Hy0 Hy1].
  pose proof (cos_decreasing_1 (acos x) (acos y) Hx0 Hx1 Hy0 Hy1 H) as Hc.
  rewrite !cos_acos in Hc by lra. lra.
Qed.

Lemma half_angle_bound (max_angle c : R) :
  0 <= max_angle <= 2 * PI ->
  cos (max_angle / 2) <= c <= 1 ->
  2 * acos (Rabs c) <= max_angle.
Proof.
  intros Hangle [Hlo Hhi].
  pose proof (COS_bound (max_angle / 2)) as [Hc _].
  assert (Habs : cos (max_angle / 2) <= Rabs c <= 1).
  { split.
    - pose proof (Rle_abs c). lra.
    - apply Rabs_le. lra. }
  pose proof (acos_antitone _ _ Hc (proj1 Habs) (proj2 Habs)) as Hmono.
  rewrite acos_cos in Hmono by lra. lra.
Qed.

Lemma within_angle_row_distance (q : quat) (max_angle u : R) (v : vec3) :
  quat_norm q = 1 -> 0 <= max_angle <= 2 * PI ->
  0 <= u <= 1 -> v <> vec3_zero ->
  exists out,
    within_angle_row q max_angle u v = inr out /\
    angular_distance q out <= max_angle.
Proof.
  intros Hq Hangle Hu Hv. eexists. split.
  - now apply within_angle_row_defined.
  - unfold angular_distance. rewrite quat_dot_mul.
    apply quat_norm_unit_iff in Hq. rewrite Hq, Rmult_1_l.
    cbn [local_quat qw]. apply half_angle_bound; [exact Hangle |].
    split; [apply cos_phi_ge_cos | apply cos_phi_le_1]; lra.
Qed.

(** C2, amended.  For unit-norm references, [max_angle] in [0, 2*PI],
    draws [u] of [torch.rand] and non-zero direction draws, every row
    returned by [sample_quat_within_angle] and by
    [sample_quat_within_rot_angle] is at angular distance
    [2*arccos(|dot|)] at most [max_angle] from its reference, with no
    tolerance. *)
Theorem samplers_angular_bound (center_q : list quat) (q0 : quat)
    (num_samples : nat) (max_angle : R) (rand : nat -> R) (randn : nat -> vec3) :
  unit_rows center_q -> quat_norm q0 = 1 ->
  0 <= max_angle <= 2 * PI ->
  rand_contract rand -> nonzero_rows randn ->
  (forall i q, center_q !! i = Some q ->
     exists out,
       sample_quat_within_angle center_q max_angle rand randn !! i
         = Some (inr out) /\
       angular_distance q out <= max_angle) /\
  (forall i, (i < num_samples)%nat ->
     exists out,
       sample_quat_within_rot_angle q0 max_angle num_samples rand randn !! i
         = Some (inr out) /\
       angular_distance q0 out <= max_angle).
Proof.
  intros Hunit Hq0 Hangle Hrand Hrandn.
  assert (Hu : forall i, 0 <= rand i <= 1).
  { intros i. destruct (Hrand i). lra. }
  split.
  - intros i q Hi.
    pose proof (Forall_lookup_1 _ _ _ _ Hunit Hi) as Hq.
    destruct (within_angle_row_distance q max_angle (rand i) (randn i)
                Hq Hangle (Hu i) (Hrandn i)) as (out & Hout & Hdist).
    exists out. split; [| exact Hdist].
    rewrite within_angle_lookup, Hi. cbn [fmap option_fmap option_map].
    now rewrite Hout.
  - intros i Hi.
    destruct (within_angle_row_distance q0 max_angle (rand i) (randn i)
                Hq0 Hangle (Hu i) (Hrandn i)) as (out & Hout & Hdist).
    exists out. split; [| exact Hdist].
    now rewrite (within_rot_angle_lookup _ _ _ _ _ _ Hi), Hout.
Qed.

Lemma samplers_angular_bound_witness :
  exists out,
    sample_quat_within_rot_angle quat_identity (PI / 18) 3
      (fun _ => 1 / 2) (fun _ => unit_x) !! 2%nat = Some (inr out) /\
    angular_distance quat_identity out <= PI / 18.
Proof.
  assert (H1 : unit_rows [quat_identity]).
  { constructor; [exact quat_identity_unit | constructor]. }
  assert (H2 : 0 <= PI / 18 <= 2 * PI) by (pose proof PI_RGT_0; lra).
  assert (H3 : rand_contract (fun _ => 1 / 2)) by (intros i; lra).
  assert (H4 : nonzero_rows (fun _ => unit_x)) by (intros i; exact unit_x_nonzero).
  assert (H5 : (2 < 3)%nat) by (repeat constructor).
  exact (proj2 (samplers_angular_bound [quat_identity] quat_identity 3
                  (PI / 18) _ _ H1 quat_identity_unit H2 H3 H4) 2%nat H5).
Defined.

(** C2 as stated, for every value of the draws, fails on the zero
    direction draw: the row is undefined, so no output row within the
    bound exists. *)
Lemma angular_bound_zero_draw :
  ~ (exists out,
       sample_quat_within_angle [quat_identity] PI
         (fun _ => 1 / 2) (fun _ => vec3_zero) !! 0%nat = Some (inr out) /\
       angular_distance quat_identity out <= PI) /\
  ~ (exists out,
       sample_quat_within_rot_angle quat_identity PI 1
         (fun _ => 1 / 2) (fun _ => vec3_zero) !! 0%nat = Some (inr out) /\
       angular_distance quat_identity out <= PI).
Proof.
  assert (Hu : 0 <= 1 / 2 <= 1) by lra.
  split; intros (out & Hout & _).
  - rewrite within_angle_lookup in Hout. cbn in Hout.
    rewrite (within_angle_row_zero_draw _ _ _ Hu) in Hout. discriminate Hout.
  - rewrite within_rot_angle_lookup in Hout by (repeat constructor).
    rewrite (within_angle_row_zero_draw _ _ _ Hu) in Hout. discriminate Hout.
Qed.

(** ** A zero maximum angle *)

Lemma cos_phi_zero_angle (u : R) : cos_phi 0 u = 1.
Proof.
  unfold cos_phi. replace (0 / 2) with 0 by field. rewrite cos_0. ring.
Qed.

Lemma sin_phi_zero_angle (u : R) : sin_phi 0 u = inr 0.
Proof.
  unfold sin_phi, torch_sqrt. rewrite cos_phi_zero_angle.
  replace (1 - 1 ^ 2) with 0 by ring. rewrite sqrt_0.
  destruct (Rle_dec 0 0) as [_ | Hn]; [reflexivity | exfalso; lra].
Qed.

Lemma local_quat_zero_sin (d : vec3) : local_quat 1 0 d = quat_identity.
Proof. unfold local_quat, quat_identity. f_equal; ring. Qed.

Lemma within_angle_row_zero_angle (q : quat) (u : R) (v : vec3) :
  v <> vec3_zero -> within_angle_row q 0 u v = inr q.
Proof.
  intros Hv. unfold within_angle_row.
  rewrite sin_phi_zero_angle. cbn [Torch.bind].
  rewrite (normalize_nonzero _ Hv). cbn [Torch.bind Torch.ret].
  rewrite cos_phi_zero_angle, local_quat_zero_sin, quat_mul_identity_r.
  reflexivity.
Qed.

(** C4, amended.  With [max_angle = 0], for every reference, every
    drawn [u] and every non-zero direction draw: [cos_phi = 1] and
    [sin_phi = 0], the local quaternion is the identity (1,0,0,0), and
    both samplers return their references unchanged. *)
Theorem samplers_zero_angle (center_q : list quat) (q0 : quat)
    (num_samples : nat) (rand : nat -> R) (randn : nat -> vec3) :
  nonzero_rows randn ->
  (forall i,
     cos_phi 0 (rand i) = 1 /\
     sin_phi 0 (rand i) = inr 0 /\
     exists vhat,
       normalize (randn i) = inr vhat /\
       local_quat (cos_phi 0 (rand i)) 0 vhat = quat_identity) /\
  sample_quat_within_angle center_q 0 rand randn = inr <$> center_q /\
  sample_quat_within_rot_angle q0 0 num_samples rand randn
    = replicate num_samples (inr q0).
Proof.
  intros Hrandn. split; [| split].
  - intros i. split; [apply cos_phi_zero_angle |].
    split; [apply sin_phi_zero_angle |].
    exists (direction (randn i)). split; [now apply normalize_nonzero |].
    rewrite cos_phi_zero_angle. apply local_quat_zero_sin.
  - unfold sample_quat_within_angle.
    rewrite <- (imap_const inr center_q). apply imap_ext.
    intros i q _. now apply within_angle_row_zero_angle.
  - unfold sample_quat_within_rot_angle.
    rewrite <- fmap_replicate, <- (imap_const inr (replicate num_samples q0)).
    apply imap_ext. intros i q _. now apply within_angle_row_zero_angle.
Qed.

Lemma samplers_zero_angle_witness :
  sample_quat_within_angle [quat_identity] 0 (fun _ => 1 / 2) (fun _ => unit_x)
    = [inr quat_identity].
Proof.
  assert (H : nonzero_rows (fun _ => unit_x)) by (intros i; exact unit_x_nonzero).
  exact (proj1 (proj2 (samplers_zero_angle [quat_identity] quat_identity 1
                         (fun _ => 1 / 2) _ H))).
Defined.

(** C4 as stated, for every draw, fails on the zero direction draw:
    the returned row is undefined, not the reference. *)
Lemma zero_angle_zero_draw :
  sample_quat_within_angle [quat_identity] 0 (fun _ => 1 / 2) (fun _ => vec3_zero)
    <> [inr quat_identity] /\
  sample_quat_within_rot_angle quat_identity 0 1 (fun _ => 1 / 2) (fun _ => vec3_zero)
    <> [inr quat_identity].
Proof.
  assert (Hu : 0 <= 1 / 2 <= 1) by lra.
  unfold sample_quat_within_angle, sample_quat_within_rot_angle.
  cbn [replicate imap]. change within_rot_angle_row with within_angle_row.
  rewrite (within_angle_row_zero_draw _ _ _ Hu).
  split; intros H; discriminate H.
Qed.

(** ** The division of step 4 *)

Lemma within_angle_row_div_by_zero_iff (q : quat) (max_angle u : R) (v : vec3) :
  0 <= u <= 1 ->
  within_angle_row q max_angle u v = inl DivisionByZero <-> v = vec3_zero.
Proof.
  intros Hu. split.
  - intros H. destruct (Req_dec_T (vec3_norm v) 0) as [H0 | Hn].
    + now apply vec3_norm_zero_iff.
    + rewrite within_angle_row_defined in H; [discriminate H | exact Hu |].
      intros Hv. apply Hn. now apply vec3_norm_zero_iff.
  - intros ->. now apply within_angle_row_zero_draw.
Qed.

(** C8, amended.  The normalization divides by the norm of the drawn
    vector with no guard.  For draws [u] of [torch.rand], a row of
    either sampler divides by zero exactly when its direction draw is
    the zero vector: a zero draw always does, and a non-zero draw never
    does, whatever [sin_phi] is. *)
Theorem division_by_zero_iff_zero_draw (center_q : list quat) (q0 : quat)
    (num_samples : nat) (max_angle : R) (rand : nat -> R) (randn : nat -> vec3) :
  rand_contract rand ->
  (forall i q, center_q !! i = Some q ->
     (sample_quat_within_angle center_q max_angle rand randn !! i
        = Some (inl DivisionByZero) <-> randn i = vec3_zero)) /\
  (forall i, (i < num_samples)%nat ->
     (sample_quat_within_rot_angle q0 max_angle num_samples rand randn !! i
        = Some (inl DivisionByZero) <-> randn i = vec3_zero)) /\
  (forall v, normalize v = inl DivisionByZero <-> v = vec3_zero).
Proof.
  intros Hrand.
  assert (Hu : forall i, 0 <= rand i <= 1).
  { intros i. destruct (Hrand i). lra. }
  split; [| split].
  - intros i q Hi. rewrite within_angle_lookup, Hi.
    cbn [fmap option_fmap option_map].
    rewrite <- (within_angle_row_div_by_zero_iff q max_angle _ _ (Hu i)).
    split; [intros H; now injection H | intros ->; reflexivity].
  - intros i Hi. rewrite (within_rot_angle_lookup _ _ _ _ _ _ Hi).
    rewrite <- (within_angle_row_div_by_zero_iff q0 max_angle _ _ (Hu i)).
    split; [intros H; now injection H | intros ->; reflexivity].
  - apply normalize_div_by_zero_iff.
Qed.

Lemma division_by_zero_iff_zero_draw_witness :
  sample_quat_within_rot_angle quat_identity 0 1 (fun _ => 0) (fun _ => unit_x)
    !! 0%nat = Some (inl DivisionByZero) <-> unit_x = vec3_zero.
Proof.
  assert (H : rand_contract (fun _ => 0)) by (intros i; lra).
  assert (H1 : (0 < 1)%nat) by constructor.
  exact (proj1 (proj2 (division_by_zero_iff_zero_draw [] quat_identity 1 0
                         _ (fun _ => unit_x) H)) 0%nat H1).
Defined.

(** C8 as stated fails: on a zero-length direction draw, here with
    [max_angle = 0] so that [sin_phi = 0] as well, both samplers divide
    by zero. *)
Lemma normalization_unguarded :
  sample_quat_within_angle [quat_identity] 0 (fun _ => 0) (fun _ => vec3_zero)
    = [inl DivisionByZero] /\
  sample_quat_within_rot_angle quat_identity 0 1 (fun _ => 0) (fun _ => vec3_zero)
    = [inl DivisionByZero].
Proof.
  assert (Hu : 0 <= 0 <= 1) by lra.
  unfold sample_quat_within_angle, sample_quat_within_rot_angle.
  cbn [replicate imap]. change within_rot_angle_row with within_angle_row.
  rewrite (within_angle_row_zero_draw _ _ _ Hu). split; reflexivity.
Qed.

(** ** Range-based resampling *)

Lemma get_range_absent (m : gmap string (R * R)) (key : string) :
  m !! key = None -> get_range m key = (0, 0).
Proof. unfold get_range. now intros ->. Qed.

Lemma get_range_present (m : gmap string (R * R)) (key : string) (lo hi : R) :
  m !! key = Some (lo, hi) -> get_range m key = (lo, hi).
Proof. unfold get_range. now intros ->. Qed.

Lemma range_list_length (m : gmap string (R * R)) (keys : list string) :
  length (range_list m keys) = length keys.
Proof. unfold range_list. apply length_fmap. Qed.

Lemma sample_uniform_ranges (ranges : list (R * R)) (n : nat)
    (rand : nat -> nat -> R) :
  sample_uniform (lows ranges) (highs ranges) (n, length ranges) rand =
    inr ((fun i => imap (fun j '(lo, hi) => rand i j * (hi - lo) + lo) ranges)
         <$> seq 0 n).
Proof.
  unfold sample_uniform, lows, highs.
  rewrite decide_True by (now rewrite !length_fmap).
  now rewrite zip_fst_snd.
Qed.

Lemma sample_uniform_mismatch (lower upper : list R) (n k : nat)
    (rand : nat -> nat -> R) :
  length lower <> k -> sample_uniform lower upper (n, k) rand = inl RuntimeError.
Proof.
  intros Hk. unfold sample_uniform.
  rewrite decide_False; [reflexivity | intros [H _]; now apply Hk].
Qed.

Lemma affine_draw_in_range (m : gmap string (R * R)) (key : string) (r : R) :
  0 <= r < 1 ->
  entry_in_range m key
    (r * ((get_range m key).2 - (get_range m key).1) + (get_range m key).1).
Proof.
  intros Hr. unfold entry_in_range, get_range.
  destruct (m !! key) as [[lo hi] |]; cbn.
  - split.
    + unfold Rmin, Rmax. destruct (Rle_dec lo hi); nra.
    + intros Hle. nra.
  - ring.
Qed.

Lemma sampled_columns_in_range (m : gmap string (R * R)) (keys : list string)
    (n : nat) (rand : nat -> nat -> R) :
  rand2_contract rand ->
  columns_in_range m keys n
    ((fun i => imap (fun j '(lo, hi) => rand i j * (hi - lo) + lo)
                    (range_list m keys))
     <$> seq 0 n).
Proof.
  intros Hrand. split.
  - now rewrite length_fmap, length_seq.
  - intros i row Hrow. rewrite list_lookup_fmap in Hrow.
    destruct (seq 0 n !! i) as [i' |] eqn:Hi; [| discriminate Hrow].
    cbn in Hrow. injection Hrow as <-. split.
    + now rewrite length_imap, range_list_length.
    + intros j key x Hkey Hx.
      rewrite list_lookup_imap in Hx. unfold range_list in Hx.
      rewrite list_lookup_fmap, Hkey in Hx. cbn in Hx.
      destruct (get_range m key) as [lo hi] eqn:Hrange.
      injection Hx as <-.
      pose proof (affine_draw_in_range m key (rand i' j) (Hrand i' j)) as H.
      now rewrite Hrange in H.
Qed.

(** The part of the range resampling that does reach a sample.  An
    absent key resolves to (0.0, 0.0) and nothing raises: [test_dict]
    and the position extraction of the reset event return a sample of
    one row per environment index, in which the column of an absent key
    is identically 0 and the entries of the column of a present key lie
    between its bounds, within [[low, high]] when [low <= high]. *)
Theorem range_resampling (m : gmap string (R * R)) (env_ids : list nat)
    (rand : nat -> nat -> R) :
  rand2_contract rand ->
  (forall key, m !! key = None -> get_range m key = (0, 0)) /\
  (forall key lo hi, m !! key = Some (lo, hi) -> get_range m key = (lo, hi)) /\
  (exists rand_samples,
     test_dict env_ids m rand = inr (range_list m test_dict_keys, rand_samples) /\
     columns_in_range m test_dict_keys (length env_ids) rand_samples) /\
  (exists samples,
     xyz_pos_rand_samples (xyz_pos_ranges m) env_ids rand = inr samples /\
     columns_in_range m ["x"; "y"; "z"]%string (length env_ids) samples).
Proof.
  intros Hrand.
  split; [apply get_range_absent |].
  split; [apply get_range_present |].
  split.
  - eexists. split.
    + unfold test_dict.
      change 4%nat with (length (range_list m test_dict_keys)).
      rewrite sample_uniform_ranges. reflexivity.
    + now apply sampled_columns_in_range.
  - eexists. split.
    + unfold xyz_pos_rand_samples.
      change 3%nat with (length (xyz_pos_ranges m)).
      apply sample_uniform_ranges.
    + now apply sampled_columns_in_range.
Qed.

Lemma range_resampling_witness :
  exists samples,
    xyz_pos_rand_samples (xyz_pos_ranges position_range0) [0; 1; 2]%nat
                         (fun _ _ => 1 / 2) = inr samples /\
    columns_in_range position_range0 ["x"; "y"; "z"]%string 3 samples.
Proof.
  assert (H : rand2_contract (fun _ _ => 1 / 2)) by (intros i j; lra).
  exact (proj2 (proj2 (proj2 (range_resampling position_range0 [0; 1; 2]%nat
                                 _ H)))).
Defined.

(** ** The reset event: what it leaves untouched *)

Lemma asset_frame_refl (a : Asset) : asset_frame a a.
Proof. split; reflexivity. Qed.

Lemma asset_frame_trans (a b c : Asset) :
  asset_frame a b -> asset_frame b c -> asset_frame a c.
Proof.
  intros [Hd1 Hw1] [Hd2 Hw2]. split.
  - now rewrite Hd2.
  - now transitivity (sim_writes b).
Qed.

Lemma env_frame_refl (env : ManagerBasedEnv) : env_frame env env.
Proof.
  split; [reflexivity |].
  intros name. destruct (assets (scene env) !! name); constructor.
  apply asset_frame_refl.
Qed.

Lemma env_frame_trans (e1 e2 e3 : ManagerBasedEnv) :
  env_frame e1 e2 -> env_frame e2 e3 -> env_frame e1 e3.
Proof.
  intros [Ho1 Ha1] [Ho2 Ha2]. split.
  - now rewrite Ho2.
  - intros name. specialize (Ha1 name). specialize (Ha2 name).
    destruct Ha1 as [a b Hab |]; inversion Ha2 as [b' c Hbc |]; subst; constructor.
    now apply (asset_frame_trans a b c).
Qed.

Lemma frames_mret {A} (a : A) : frames (mret a).
Proof. intros env. apply env_frame_refl. Qed.

Lemma frames_lift {A} (r : result A) : frames (lift r).
Proof. intros env. apply env_frame_refl. Qed.

Lemma frames_get_asset (name : string) : frames (get_asset name).
Proof.
  intros env. unfold get_asset.
  destruct (assets (scene env) !! name); apply env_frame_refl.
Qed.

Lemma frames_get_env_origins (env_ids : list nat) :
  frames (get_env_origins env_ids).
Proof. intros env. apply env_frame_refl. Qed.

Lemma frames_mbind {A B} (m : M A) (k : A -> M B) :
  frames m -> (forall a, frames (k a)) -> frames (mbind m k).
Proof.
  intros Hm Hk env. unfold mbind. specialize (Hm env).
  destruct (m env) as [[e | a] env']; cbn [snd] in *; [exact Hm |].
  apply (env_frame_trans env env'); [exact Hm | apply Hk].
Qed.

Lemma frames_commit (name : string) (w : sim_write) :
  frames (update_asset name (commit w)).
Proof.
  intros env. unfold update_asset. cbn [snd]. split; [reflexivity |].
  intros n. cbn [scene assets]. rewrite lookup_alter.
  destruct (decide (name = n)) as [-> | _].
  - destruct (assets (scene env) !! n) as [a |]; constructor.
    split; [reflexivity |]. cbn [commit sim_writes].
    now apply prefix_app_r.
  - destruct (assets (scene env) !! n); constructor. apply asset_frame_refl.
Qed.

Lemma frames_reset (env_ids : list nat)
    (position_range velocity_range : gmap string (R * R))
    (max_radian : R) (asset_cfg : string) (rng : Draws) :
  frames (reset_root_state_clamped_angular_distance
            env_ids position_range velocity_range max_radian asset_cfg rng).
Proof.
  unfold reset_root_state_clamped_angular_distance.
  apply frames_mbind; [apply frames_get_asset | intros asset].
  apply frames_mbind; [apply frames_lift | intros root_states].
  apply frames_mbind; [apply frames_lift | intros pos_samples].
  apply frames_mbind; [apply frames_lift | intros vel_samples].
  apply frames_mbind; [apply frames_get_env_origins | intros origins].
  apply frames_mbind; [apply frames_commit | intros _].
  apply frames_commit.
Qed.

(** C10.  The event leaves the stored default root state of every
    asset as it was: it works on a fresh copy of the selected rows.
    The environment after the call differs from the one before at most
    by batches appended to the pose and velocity sinks. *)
Theorem reset_preserves_default_root_state (env_ids : list nat)
    (position_range velocity_range : gmap string (R * R))
    (max_radian : R) (asset_cfg : string) (rng : Draws)
    (env : ManagerBasedEnv) :
  let env' :=
    snd (reset_root_state_clamped_angular_distance
           env_ids position_range velocity_range max_radian asset_cfg rng env) in
  (forall name,
     default_root_state <$> assets (scene env') !! name
       = default_root_state <$> assets (scene env) !! name) /\
  env_frame env env'.
Proof.
  intros env'.
  assert (H : env_frame env env') by apply frames_reset.
  split; [| exact H].
  intros name. destruct H as [_ H]. specialize (H name).
  destruct H as [a a' [Hd _] |]; cbn; [now rewrite Hd | reflexivity].
Qed.

(** ** The reset event: the velocity sample *)

Lemma xyz_pos_ranges_length (position_range : gmap string (R * R)) :
  length (xyz_pos_ranges position_range) = 3%nat.
Proof. reflexivity. Qed.

Lemma xyzrpy_vel_rand_samples_raises (position_range : gmap string (R * R))
    (env_ids : list nat) (rand : nat -> nat -> R) :
  xyzrpy_vel_rand_samples (xyz_pos_ranges position_range) env_ids rand
    = inl RuntimeError.
Proof.
  unfold xyzrpy_vel_rand_samples. apply sample_uniform_mismatch.
  unfold lows. rewrite length_fmap, xyz_pos_ranges_length. discriminate.
Qed.

Lemma reset_always_raises (env_ids : list nat)
    (position_range velocity_range : gmap string (R * R))
    (max_radian : R) (asset_cfg : string) (rng : Draws)
    (env : ManagerBasedEnv) :
  exists e,
    reset_root_state_clamped_angular_distance
      env_ids position_range velocity_range max_radian asset_cfg rng env
    = (inl e, env).
Proof.
  unfold reset_root_state_clamped_angular_distance, mbind at 1, get_asset.
  destruct (assets (scene env) !! asset_cfg) as [asset |]; [| now eexists].
  unfold mbind at 1, lift at 1.
  destruct (index_rows (default_root_state asset) env_ids) as [e | root_states];
    [now eexists |].
  unfold mbind at 1, lift at 1.
  destruct (xyz_pos_rand_samples (xyz_pos_ranges position_range) env_ids
              (pos_rand rng)) as [e | pos_samples]; [now eexists |].
  unfold mbind at 1, lift at 1.
  rewrite xyzrpy_vel_rand_samples_raises. now eexists.
Qed.

Lemma reset_env0_raises (velocity_range : gmap string (R * R)) :
  reset_root_state_clamped_angular_distance
    [0%nat] position_range0 velocity_range 0 default_asset_cfg rng0 env0
  = (inl RuntimeError, env0).
Proof.
  unfold reset_root_state_clamped_angular_distance, mbind at 1, get_asset.
  unfold env0 at 1, default_asset_cfg. cbn [scene assets].
  rewrite lookup_singleton_eq.
  unfold mbind at 1, lift at 1.
  change (index_rows (default_root_state robot0) [0%nat])
    with (inr (B := list (list R)) (A := exception) (default_root_state robot0)).
  unfold mbind at 1, lift at 1, xyz_pos_rand_samples.
  change 3%nat with (length (xyz_pos_ranges position_range0)).
  rewrite sample_uniform_ranges.
  unfold mbind at 1, lift at 1.
  rewrite xyzrpy_vel_rand_samples_raises. reflexivity.
Qed.

Lemma positions_lookup (root_states origins samples : list (list R))
    (i : nat) (r o s : list R) :
  root_states !! i = Some r -> origins !! i = Some o -> samples !! i = Some s ->
  positions root_states origins samples !! i
    = Some (zip_with Rplus (zip_with Rplus (slice 0 3 r) o) s).
Proof.
  intros Hr Ho Hs. unfold positions, tensor_add.
  rewrite !lookup_zip_with, list_lookup_fmap, Hr, Ho, Hs. reflexivity.
Qed.

(** C1: what the code does.  The velocity sample is requested with the
    bounds of [position_range] and the shape (N, 6), so it raises for
    every input; the outcome of the event does not depend on
    [velocity_range], and with [velocity_range = {"x": (5, 6)}] no
    velocity is committed at all. *)
Theorem velocity_jitter_ignores_velocity_range :
  (forall env_ids position_range velocity_range velocity_range'
          max_radian asset_cfg rng env,
     reset_root_state_clamped_angular_distance
       env_ids position_range velocity_range max_radian asset_cfg rng env
     = reset_root_state_clamped_angular_distance
         env_ids position_range velocity_range' max_radian asset_cfg rng env) /\
  (forall position_range env_ids rand,
     xyzrpy_vel_rand_samples (xyz_pos_ranges position_range) env_ids rand
       = inl RuntimeError) /\
  reset_root_state_clamped_angular_distance
    [0%nat] position_range0 velocity_range0 0 default_asset_cfg rng0 env0
  = (inl RuntimeError, env0).
Proof.
  split; [reflexivity |].
  split; [apply xyzrpy_vel_rand_samples_raises | apply reset_env0_raises].
Qed.

(** C7: what the code does.  For every input the event raises before
    [write_root_pose_to_sim] is reached and leaves the environment as it
    was, so no position is committed; on the one-robot environment the
    exception is the size mismatch of the velocity sample and the sink
    of the robot stays empty. *)
Theorem reset_raises_before_pose_write :
  (forall env_ids position_range velocity_range max_radian asset_cfg rng env,
     exists e,
       reset_root_state_clamped_angular_distance
         env_ids position_range velocity_range max_radian asset_cfg rng env
       = (inl e, env)) /\
  reset_root_state_clamped_angular_distance
    [0%nat] position_range0 ∅ 0 default_asset_cfg rng0 env0
  = (inl RuntimeError, env0) /\
  sim_writes <$>
    assets (scene (snd (reset_root_state_clamped_angular_distance
                          [0%nat] position_range0 ∅ 0 default_asset_cfg rng0 env0)))
      !! "robot"%string
  = Some [].
Proof.
  split; [apply reset_always_raises |].
  split; [apply reset_env0_raises |].
  rewrite reset_env0_raises. cbn [snd]. unfold env0. cbn [scene assets].
  rewrite lookup_singleton_eq. reflexivity.
Qed.

(** ** The reset event: the columns of [velocity_range] *)

Lemma xyz_vel_ranges_velocity_range0 :
  xyz_vel_ranges velocity_range0
    = [(5, 6); (0, 0); (0, 0); (0, 0); (0, 0); (0, 0)].
Proof.
  unfold xyz_vel_ranges, range_list, velocity_range0.
  cbn [fmap list_fmap]. unfold get_range.
  rewrite lookup_singleton_eq.
  rewrite !lookup_singleton_ne by discriminate.
  reflexivity.
Qed.

(** C6: what the code does.  With [velocity_range = {"x": (5, 6)}] the
    extraction of lines 115-116 does resolve the present key to (5, 6)
    and the five absent keys to (0.0, 0.0) without raising, but the list
    it builds is never sampled: the only velocity sample is requested
    from the bounds of [position_range] with six columns and raises, for
    every draw and every set of environment indices, and the event ends
    in that exception.  So no column within [5, 6] exists for x and no
    zero column for roll, pitch or yaw. *)
Theorem velocity_range_gets_no_sample_column :
  xyz_vel_ranges velocity_range0
    = [(5, 6); (0, 0); (0, 0); (0, 0); (0, 0); (0, 0)] /\
  (forall env_ids rand,
     xyzrpy_vel_rand_samples (xyz_pos_ranges position_range0) env_ids rand
       = inl RuntimeError) /\
  (forall env_ids max_radian asset_cfg rng env,
     exists e,
       reset_root_state_clamped_angular_distance
         env_ids position_range0 velocity_range0 max_radian asset_cfg rng env
       = (inl e, env)) /\
  reset_root_state_clamped_angular_distance
    [0%nat] position_range0 velocity_range0 0 default_asset_cfg rng0 env0
  = (inl RuntimeError, env0).
Proof.
  split; [apply xyz_vel_ranges_velocity_range0 |].
  split; [intros env_ids rand; apply xyzrpy_vel_rand_samples_raises |].
  split; [| apply reset_env0_raises].
  intros env_ids max_radian asset_cfg rng env. apply reset_always_raises.
Qed.

(** ** Further properties of the samplers *)

Lemma within_angle_lookup_defined (center_q : list quat) (max_angle : R)
    (rand : nat -> R) (randn : nat -> vec3) (i : nat) (q : quat) :
  center_q !! i = Some q -> 0 <= rand i < 1 -> randn i <> vec3_zero ->
  sample_quat_within_angle center_q max_angle rand randn !! i =
    Some (inr (quat_mul q (local_quat (cos_phi max_angle (rand i))
                             (sqrt (1 - cos_phi max_angle (rand i) ^ 2))
                             (direction (randn i))))).
Proof.
  intros Hi Hu Hv. rewrite within_angle_lookup, Hi.
  cbn [fmap option_fmap option_map].
  rewrite within_angle_row_defined; [reflexivity | lra | exact Hv].
Qed.

Lemma within_rot_angle_lookup_defined (q0 : quat) (max_angle : R) (n : nat)
    (rand : nat -> R) (randn : nat -> vec3) (i : nat) :
  (i < n)%nat -> 0 <= rand i < 1 -> randn i <> vec3_zero ->
  sample_quat_within_rot_angle q0 max_angle n rand randn !! i =
    Some (inr (quat_mul q0 (local_quat (cos_phi max_angle (rand i))
                              (sqrt (1 - cos_phi max_angle (rand i) ^ 2))
                              (direction (randn i))))).
Proof.
  intros Hi Hu Hv. rewrite (within_rot_angle_lookup _ _ _ _ _ _ Hi).
  rewrite within_angle_row_defined; [reflexivity | lra | exact Hv].
Qed.

Lemma local_quat_unit (max_angle u : R) (v : vec3) :
  0 <= u < 1 -> v <> vec3_zero ->
  quat_norm2 (local_quat (cos_phi max_angle u)
                (sqrt (1 - cos_phi max_angle u ^ 2)) (direction v)) = 1.
Proof.
  intros Hu Hv. apply local_quat_norm2.
  - apply cos_sin_phi_square. lra.
  - now apply direction_unit.
Qed.

Lemma quat_norm_mul_unit (q l : quat) :
  quat_norm2 l = 1 -> quat_norm (quat_mul q l) = quat_norm q.
Proof.
  intros Hl. unfold quat_norm. now rewrite quat_norm2_mul, Hl, Rmult_1_r.
Qed.

(** The samplers never renormalise: a row whose direction draw is not
    zero is defined, whatever happens in the other rows, and has the
    norm of its reference, unit or not. *)
Theorem samplers_preserve_norm (center_q : list quat) (q0 : quat) (n : nat)
    (max_angle : R) (rand : nat -> R) (randn : nat -> vec3) (i : nat) :
  0 <= rand i < 1 -> randn i <> vec3_zero ->
  (forall q, center_q !! i = Some q ->
     exists out,
       sample_quat_within_angle center_q max_angle rand randn !! i
         = Some (inr out) /\
       quat_norm out = quat_norm q) /\
  ((i < n)%nat ->
     exists out,
       sample_quat_within_rot_angle q0 max_angle n rand randn !! i
         = Some (inr out) /\
       quat_norm out = quat_norm q0).
Proof.
  intros Hu Hv. split.
  - intros q Hi. eexists. split.
    + exact (within_angle_lookup_defined _ _ _ _ _ _ Hi Hu Hv).
    + apply quat_norm_mul_unit. now apply local_quat_unit.
  - intros Hi. eexists. split.
    + exact (within_rot_angle_lookup_defined _ _ _ _ _ _ Hi Hu Hv).
    + apply quat_norm_mul_unit. now apply local_quat_unit.
Qed.

Lemma samplers_preserve_norm_witness :
  exists out,
    sample_quat_within_angle [Quat 2 0 0 0; quat_identity] PI
      (fun _ => 1 / 2)
      (fun i => match i with O => unit_x | _ => vec3_zero end) !! 0%nat
      = Some (inr out) /\
    quat_norm out = quat_norm (Quat 2 0 0 0).
Proof.
  assert (Hu : 0 <= 1 / 2 < 1) by lra.
  exact (proj1 (samplers_preserve_norm [Quat 2 0 0 0; quat_identity]
                  quat_identity 0 PI (fun _ => 1 / 2)
                  (fun i => match i with O => unit_x | _ => vec3_zero end)
                  0%nat Hu unit_x_nonzero)
               (Quat 2 0 0 0) eq_refl).
Defined.

(** The dot product of a reference with its output row is
    [|q|^2 * cos_phi]: it is fixed by [u] and [max_angle] alone and does
    not depend on the direction draw. *)
Theorem samplers_dot_is_cos_phi (center_q : list quat) (q0 : quat) (n : nat)
    (max_angle : R) (rand : nat -> R) (randn : nat -> vec3) (i : nat) :
  0 <= rand i < 1 -> randn i <> vec3_zero ->
  (forall q, center_q !! i = Some q ->
     exists out,
       sample_quat_within_angle center_q max_angle rand randn !! i
         = Some (inr out) /\
       quat_dot q out = quat_norm2 q * cos_phi max_angle (rand i)) /\
  ((i < n)%nat ->
     exists out,
       sample_quat_within_rot_angle q0 max_angle n rand randn !! i
         = Some (inr out) /\
       quat_dot q0 out = quat_norm2 q0 * cos_phi max_angle (rand i)).
Proof.
  intros Hu Hv. split.
  - intros q Hi. eexists. split.
    + exact (within_angle_lookup_defined _ _ _ _ _ _ Hi Hu Hv).
    + now rewrite quat_dot_mul.
  - intros Hi. eexists. split.
    + exact (within_rot_angle_lookup_defined _ _ _ _ _ _ Hi Hu Hv).
    + now rewrite quat_dot_mul.
Qed.

Lemma samplers_dot_is_cos_phi_witness :
  exists out,
    sample_quat_within_rot_angle quat_identity PI 2
      (fun _ => 1 / 2) (fun _ => unit_x) !! 1%nat = Some (inr out) /\
    quat_dot quat_identity out = quat_norm2 quat_identity * cos_phi PI (1 / 2).
Proof.
  assert (Hu : 0 <= 1 / 2 < 1) by lra.
  assert (Hi : (1 < 2)%nat) by (repeat constructor).
  exact (proj2 (samplers_dot_is_cos_phi [] quat_identity 2 PI
                  (fun _ => 1 / 2) (fun _ => unit_x) 1%nat Hu unit_x_nonzero) Hi).
Defined.

Lemma cos_phi_zero_draw (max_angle : R) : cos_phi max_angle 0 = 1.
Proof. unfold cos_phi. ring. Qed.

Lemma local_quat_at_one (d : vec3) :
  local_quat 1 (sqrt (1 - 1 ^ 2)) d = quat_identity.
Proof.
  replace (1 - 1 ^ 2) with 0 by ring. rewrite sqrt_0.
  apply local_quat_zero_sin.
Qed.

(** The draw [u = 0], which [torch.rand] can return, gives back the
    reference itself, for every [max_angle]. *)
Theorem samplers_zero_u_returns_reference (center_q : list quat) (q0 : quat)
    (n : nat) (max_angle : R) (rand : nat -> R) (randn : nat -> vec3) (i : nat) :
  rand i = 0 -> randn i <> vec3_zero ->
  (forall q, center_q !! i = Some q ->
     sample_quat_within_angle center_q max_angle rand randn !! i
       = Some (inr q)) /\
  ((i < n)%nat ->
     sample_quat_within_rot_angle q0 max_angle n rand randn !! i
       = Some (inr q0)).
Proof.
  intros H0 Hv.
  assert (Hu : 0 <= rand i < 1) by (rewrite H0; lra).
  split.
  - intros q Hi. rewrite (within_angle_lookup_defined _ _ _ _ _ _ Hi Hu Hv).
    now rewrite H0, cos_phi_zero_draw, local_quat_at_one, quat_mul_identity_r.
  - intros Hi. rewrite (within_rot_angle_lookup_defined _ _ _ _ _ _ Hi Hu Hv).
    now rewrite H0, cos_phi_zero_draw, local_quat_at_one, quat_mul_identity_r.
Qed.

Lemma samplers_zero_u_returns_reference_witness :
  sample_quat_within_angle [Quat 0 1 0 0] PI (fun _ => 0) (fun _ => unit_x)
    !! 0%nat = Some (inr (Quat 0 1 0 0)).
Proof.
  exact (proj1 (samplers_zero_u_returns_reference [Quat 0 1 0 0] quat_identity
                  0 PI (fun _ => 0) (fun _ => unit_x) 0%nat
                  eq_refl unit_x_nonzero)
               (Quat 0 1 0 0) eq_refl).
Defined.

(** The two samplers are the same computation: sampling [num_samples]
    times around one reference is the batched sampler on the reference
    repeated [num_samples] times.  The batched sampler returns one row
    per reference, so none for an empty batch. *)
Theorem samplers_agree (center_q : list quat) (q0 : quat) (num_samples : nat)
    (max_angle : R) (rand : nat -> R) (randn : nat -> vec3) :
  sample_quat_within_rot_angle q0 max_angle num_samples rand randn
    = sample_quat_within_angle (replicate num_samples q0) max_angle rand randn /\
  length (sample_quat_within_rot_angle q0 max_angle num_samples rand randn)
    = num_samples /\
  length (sample_quat_within_angle center_q max_angle rand randn)
    = length center_q.
Proof.
  split; [reflexivity |].
  split; [apply within_rot_angle_length | apply within_angle_length].
Qed.

(** *** The sign and the period of [max_angle] *)

Lemma cos_phi_neg_angle (max_angle u : R) :
  cos_phi (- max_angle) u = cos_phi max_angle u.
Proof.
  unfold cos_phi. replace (- max_angle / 2) with (- (max_angle / 2)) by field.
  now rewrite cos_neg.
Qed.

Lemma cos_phi_period (max_angle u : R) :
  cos_phi (max_angle + 4 * PI) u = cos_phi max_angle u.
Proof.
  unfold cos_phi.
  replace ((max_angle + 4 * PI) / 2) with (max_angle / 2 + 2 * PI) by field.
  now rewrite cos_plus, cos_2PI, sin_2PI, Rmult_1_r, Rmult_0_r, Rminus_0_r.
Qed.

Lemma within_angle_row_cos_phi_ext (q : quat) (a b u : R) (v : vec3) :
  cos_phi a u = cos_phi b u ->
  within_angle_row q a u v = within_angle_row q b u v.
Proof. intros H. unfold within_angle_row, sin_phi. now rewrite H. Qed.

(** A negative [max_angle] is not rejected: it samples exactly as its
    absolute value does, and adding [4*PI] to [max_angle] changes
    nothing either. *)
Theorem samplers_max_angle_symmetry (center_q : list quat) (q0 : quat)
    (num_samples : nat) (max_angle : R) (rand : nat -> R) (randn : nat -> vec3) :
  sample_quat_within_angle center_q (- max_angle) rand randn
    = sample_quat_within_angle center_q max_angle rand randn /\
  sample_quat_within_angle center_q (max_angle + 4 * PI) rand randn
    = sample_quat_within_angle center_q max_angle rand randn /\
  sample_quat_within_rot_angle q0 (- max_angle) num_samples rand randn
    = sample_quat_within_rot_angle q0 max_angle num_samples rand randn /\
  sample_quat_within_rot_angle q0 (max_angle + 4 * PI) num_samples rand randn
    = sample_quat_within_rot_angle q0 max_angle num_samples rand randn.
Proof.
  unfold sample_quat_within_angle, sample_quat_within_rot_angle.
  change within_rot_angle_row with within_angle_row.
  repeat split; apply imap_ext; intros i q _;
    apply within_angle_row_cos_phi_ext;
    first [apply cos_phi_neg_angle | apply cos_phi_period].
Qed.

(** *** Only the direction of the [randn] draw matters *)

Lemma vec3_norm_scale (k : R) (v : vec3) :
  0 < k -> vec3_norm (vec3_scale k v) = k * vec3_norm v.
Proof.
  intros Hk. unfold vec3_norm, vec3_scale. cbn [vx vy vz].
  replace ((k * vx v) ^ 2 + (k * vy v) ^ 2 + (k * vz v) ^ 2)
    with ((k * k) * (vx v ^ 2 + vy v ^ 2 + vz v ^ 2)) by ring.
  rewrite sqrt_mult_alt by nra. rewrite sqrt_square by lra. reflexivity.
Qed.

Lemma normalize_scale (k : R) (v : vec3) :
  0 < k -> normalize (vec3_scale k v) = normalize v.
Proof.
  intros Hk. destruct (Req_dec_T (vec3_norm v) 0) as [H0 | Hn].
  - apply vec3_norm_zero_iff in H0. subst v.
    replace (vec3_scale k vec3_zero) with vec3_zero; [reflexivity |].
    unfold vec3_scale, vec3_zero. cbn [vx vy vz]. f_equal; ring.
  - assert (Hv : v <> vec3_zero).
    { intros Hv. now apply Hn, vec3_norm_zero_iff. }
    assert (Hkv : vec3_scale k v <> vec3_zero).
    { intros H. apply vec3_norm_zero_iff in H.
      rewrite (vec3_norm_scale _ _ Hk) in H. nra. }
    rewrite (normalize_nonzero _ Hv), (normalize_nonzero _ Hkv).
    unfold direction. rewrite (vec3_norm_scale _ _ Hk).
    unfold vec3_scale. cbn [vx vy vz].
    do 2 f_equal; field; split; lra.
Qed.

(** Rescaling the rows of the [randn] draw by positive factors does not
    change what the samplers return: only the direction of a draw is
    used (and a zero draw stays zero). *)
Theorem samplers_direction_scale_invariant (center_q : list quat) (q0 : quat)
    (num_samples : nat) (max_angle : R) (rand : nat -> R) (randn : nat -> vec3)
    (k : nat -> R) :
  (forall i, 0 < k i) ->
  sample_quat_within_angle center_q max_angle rand
      (fun i => vec3_scale (k i) (randn i))
    = sample_quat_within_angle center_q max_angle rand randn /\
  sample_quat_within_rot_angle q0 max_angle num_samples rand
      (fun i => vec3_scale (k i) (randn i))
    = sample_quat_within_rot_angle q0 max_angle num_samples rand randn.
Proof.
  intros Hk.
  unfold sample_quat_within_angle, sample_quat_within_rot_angle.
  change within_rot_angle_row with within_angle_row.
  split; apply imap_ext; intros i q _;
    unfold within_angle_row; now rewrite (normalize_scale _ _ (Hk i)).
Qed.

Lemma samplers_direction_scale_invariant_witness :
  sample_quat_within_angle [quat_identity] PI (fun _ => 1 / 2)
      (fun i => vec3_scale 3 unit_x)
    = sample_quat_within_angle [quat_identity] PI (fun _ => 1 / 2)
        (fun _ => unit_x).
Proof.
  assert (Hk : forall i : nat, 0 < 3) by (intros i; lra).
  exact (proj1 (samplers_direction_scale_invariant [quat_identity] quat_identity
                  0 PI (fun _ => 1 / 2) (fun _ => unit_x) (fun _ => 3) Hk)).
Defined.

(** *** Antipodal references *)

Lemma quat_mul_neg_l (q l : quat) :
  quat_mul (quat_neg q) l = quat_neg (quat_mul q l).
Proof. unfold quat_mul, quat_neg. cbn [qw qx qy qz]. f_equal; ring. Qed.

Lemma within_angle_row_neg (q : quat) (max_angle u : R) (v : vec3) :
  within_angle_row (quat_neg q) max_angle u v
    = sum_map (@Datatypes.id undefined) quat_neg (within_angle_row q max_angle u v).
Proof.
  unfold within_angle_row.
  destruct (sin_phi max_angle u) as [e | s]; [reflexivity |].
  cbn [Torch.bind].
  destruct (normalize v) as [e | d]; [reflexivity |].
  cbn [Torch.bind Torch.ret sum_map]. now rewrite quat_mul_neg_l.
Qed.

(** The references [q] and [-q] stand for the same rotation, and the
    samplers respect it: negating the references negates every output
    row and leaves undefined rows undefined. *)
Theorem samplers_antipodal (center_q : list quat) (q0 : quat)
    (num_samples : nat) (max_angle : R) (rand : nat -> R) (randn : nat -> vec3) :
  sample_quat_within_angle (quat_neg <$> center_q) max_angle rand randn
    = sum_map (@Datatypes.id undefined) quat_neg
        <$> sample_quat_within_angle center_q max_angle rand randn /\
  sample_quat_within_rot_angle (quat_neg q0) max_angle num_samples rand randn
    = sum_map (@Datatypes.id undefined) quat_neg
        <$> sample_quat_within_rot_angle q0 max_angle num_samples rand randn.
Proof.
  split; apply list_eq; intros i.
  - rewrite list_lookup_fmap, !within_angle_lookup, list_lookup_fmap.
    destruct (center_q !! i) as [q |]; [| reflexivity].
    cbn [fmap option_fmap option_map]. now rewrite within_angle_row_neg.
  - rewrite list_lookup_fmap.
    destruct (decide (i < num_samples)%nat) as [Hi | Hi].
    + rewrite !(within_rot_angle_lookup _ _ _ _ _ _ Hi).
      cbn [fmap option_fmap option_map]. now rewrite within_angle_row_neg.
    + rewrite !lookup_ge_None_2; [reflexivity | |];
        rewrite within_rot_angle_length; lia.
Qed.

(** *** Monotonicity in the draw and in the bound *)

Lemma cos_phi_antitone_u (max_angle u1 u2 : R) :
  u1 <= u2 -> cos_phi max_angle u2 <= cos_phi max_angle u1.
Proof.
  intros Hu. unfold cos_phi.
  pose proof (COS_bound (max_angle / 2)) as [_ Hc]. nra.
Qed.

Lemma cos_phi_antitone_angle (a b u : R) :
  0 <= a -> a <= b -> b <= 2 * PI -> 0 <= u ->
  cos_phi b u <= cos_phi a u.
Proof.
  intros Ha Hab Hb Hu. unfold cos_phi.
  assert (Hcos : cos (b / 2) <= cos (a / 2)) by (apply cos_decr_1; lra).
  nra.
Qed.

(** With the same reference and direction, a larger draw [u] or a
    larger bound [max_angle] (within [0, 2*PI]) never brings the output
    closer to the reference: the dot product with the reference does
    not increase. *)
Theorem sampler_dot_antitone (center_q : list quat) (a b : R)
    (rand rand' : nat -> R) (randn : nat -> vec3) (i : nat) (q : quat) :
  center_q !! i = Some q ->
  0 <= a -> a <= b -> b <= 2 * PI ->
  0 <= rand i -> rand i <= rand' i -> rand' i < 1 ->
  randn i <> vec3_zero ->
  exists out out',
    sample_quat_within_angle center_q a rand randn !! i = Some (inr out) /\
    sample_quat_within_angle center_q b rand' randn !! i = Some (inr out') /\
    quat_dot q out' <= quat_dot q out.
Proof.
  intros Hi Ha Hab Hb Hu0 Hu Hu1 Hv.
  assert (H1 : 0 <= rand i < 1) by lra.
  assert (H2 : 0 <= rand' i < 1) by lra.
  do 2 eexists. split; [| split].
  - exact (within_angle_lookup_defined _ _ _ _ _ _ Hi H1 Hv).
  - exact (within_angle_lookup_defined _ _ _ _ _ _ Hi H2 Hv).
  - rewrite !quat_dot_mul. cbn [local_quat qw].
    pose proof (quat_norm2_nonneg q) as Hq.
    pose proof (cos_phi_antitone_u b _ _ Hu) as Hmono_u.
    pose proof (cos_phi_antitone_angle a b (rand i) Ha Hab Hb Hu0) as Hmono_a.
    nra.
Qed.

Lemma sampler_dot_antitone_witness :
  exists out out',
    sample_quat_within_angle [quat_identity] (PI / 2)
      (fun _ => 1 / 4) (fun _ => unit_x) !! 0%nat = Some (inr out) /\
    sample_quat_within_angle [quat_identity] PI
      (fun _ => 1 / 2) (fun _ => unit_x) !! 0%nat = Some (inr out') /\
    quat_dot quat_identity out' <= quat_dot quat_identity out.
Proof.
  pose proof PI_RGT_0 as Hpi.
  assert (H1 : 0 <= PI / 2) by lra.
  assert (H2 : PI / 2 <= PI) by lra.
  assert (H3 : PI <= 2 * PI) by lra.
  assert (H4 : 0 <= 1 / 4) by lra.
  assert (H5 : 1 / 4 <= 1 / 2) by lra.
  assert (H6 : 1 / 2 < 1) by lra.
  exact (sampler_dot_antitone [quat_identity] (PI / 2) PI
           (fun _ => 1 / 4) (fun _ => 1 / 2) (fun _ => unit_x) 0%nat
           quat_identity eq_refl H1 H2 H3 H4 H5 H6 unit_x_nonzero).
Defined.

(** *** Recovering the deviation *)

Lemma quat_conjugate_mul_cancel (q l : quat) :
  quat_norm2 q = 1 -> quat_mul (quat_conjugate q) (quat_mul q l) = l.
Proof.
  intros Hq. destruct q as [w x y z], l as [a b c d].
  unfold quat_norm2 in Hq. cbn [qw qx qy qz] in Hq.
  unfold quat_mul, quat_conjugate. cbn [qw qx qy qz].
  f_equal;
    match goal with
    | |- ?lhs = ?r =>
        replace lhs with ((w ^ 2 + x ^ 2 + y ^ 2 + z ^ 2) * r) by ring;
        rewrite Hq; ring
    end.
Qed.

(** For a unit reference, multiplying the output row on the left by
    the conjugate of the reference gives back the local deviation
    quaternion [(cos_phi, sin_phi * v/|v|)]. *)
Theorem sampler_deviation_recovered (center_q : list quat) (max_angle : R)
    (rand : nat -> R) (randn : nat -> vec3) (i : nat) (q : quat) :
  center_q !! i = Some q -> quat_norm q = 1 ->
  0 <= rand i < 1 -> randn i <> vec3_zero ->
  exists out s vhat,
    sample_quat_within_angle center_q max_angle rand randn !! i
      = Some (inr out) /\
    sin_phi max_angle (rand i) = inr s /\
    normalize (randn i) = inr vhat /\
    quat_mul (quat_conjugate q) out
      = local_quat (cos_phi max_angle (rand i)) s vhat.
Proof.
  intros Hi Hq Hu Hv. do 3 eexists. split; [| split; [| split]].
  - exact (within_angle_lookup_defined _ _ _ _ _ _ Hi Hu Hv).
  - apply sin_phi_defined. lra.
  - now apply normalize_nonzero.
  - apply quat_conjugate_mul_cancel. now apply quat_norm_unit_iff.
Qed.

Lemma sampler_deviation_recovered_witness :
  exists out s vhat,
    sample_quat_within_angle [quat_identity] PI (fun _ => 1 / 2)
      (fun _ => unit_x) !! 0%nat = Some (inr out) /\
    sin_phi PI (1 / 2) = inr s /\
    normalize unit_x = inr vhat /\
    quat_mul (quat_conjugate quat_identity) out
      = local_quat (cos_phi PI (1 / 2)) s vhat.
Proof.
  assert (Hu : 0 <= 1 / 2 < 1) by lra.
  exact (sampler_deviation_recovered [quat_identity] PI (fun _ => 1 / 2)
           (fun _ => unit_x) 0%nat quat_identity eq_refl quat_identity_unit
           Hu unit_x_nonzero).
Defined.

(** ** Further properties of the range resampling *)

Lemma range_list_agree (keys : list string) (m m' : gmap string (R * R)) :
  agree_on keys m m' -> range_list m keys = range_list m' keys.
Proof.
  intros H. unfold range_list. apply Forall_fmap_ext.
  eapply Forall_impl; [exact H |].
  intros key Hkey. unfold get_range. now rewrite Hkey.
Qed.

Lemma agree_on_insert (keys : list string) (m : gmap string (R * R))
    (key : string) (r : R * R) :
  key ∉ keys -> agree_on keys (<[key := r]> m) m.
Proof.
  intros Hkey. apply Forall_forall. intros k Hk.
  apply lookup_insert_ne. intros ->. now apply Hkey.
Qed.

(** [test_dict] reads its mapping through the four keys x, y, z and
    max_radian only: two mappings that agree on them give the same
    result, so any other key, a misspelt one included, is silently
    ignored. *)
Theorem test_dict_uses_listed_keys (env_ids : list nat)
    (m m' : gmap string (R * R)) (rand : nat -> nat -> R) :
  agree_on test_dict_keys m m' ->
  test_dict env_ids m rand = test_dict env_ids m' rand.
Proof.
  intros H. unfold test_dict. now rewrite (range_list_agree _ _ _ H).
Qed.

Lemma roll_not_test_dict_key : "roll"%string ∉ test_dict_keys.
Proof. refine (bool_decide_unpack _ _). vm_compute. exact I. Defined.

Lemma test_dict_uses_listed_keys_witness :
  test_dict [0; 1]%nat (<["roll"%string := (1, 2)]> position_range0) (fun _ _ => 0)
    = test_dict [0; 1]%nat position_range0 (fun _ _ => 0).
Proof.
  exact (test_dict_uses_listed_keys [0; 1]%nat _ position_range0 (fun _ _ => 0)
           (agree_on_insert test_dict_keys position_range0 "roll" (1, 2)
              roll_not_test_dict_key)).
Defined.

(** The range extraction of the reset event reads [position_range]
    through x, y, z only and [velocity_range] through x, y, z, roll,
    pitch, yaw only; other keys are ignored. *)
Theorem reset_ranges_use_listed_keys (m m' : gmap string (R * R)) :
  (agree_on ["x"; "y"; "z"]%string m m' ->
     xyz_pos_ranges m = xyz_pos_ranges m') /\
  (agree_on ["x"; "y"; "z"; "roll"; "pitch"; "yaw"]%string m m' ->
     xyz_vel_ranges m = xyz_vel_ranges m').
Proof. split; intros H; now apply range_list_agree. Qed.

Lemma roll_not_position_key : "roll"%string ∉ ["x"; "y"; "z"]%string.
Proof. refine (bool_decide_unpack _ _). vm_compute. exact I. Defined.

Lemma reset_ranges_use_listed_keys_witness :
  xyz_pos_ranges (<["roll"%string := (1, 2)]> position_range0)
    = xyz_pos_ranges position_range0.
Proof.
  exact (proj1 (reset_ranges_use_listed_keys _ position_range0)
           (agree_on_insert _ position_range0 "roll" (1, 2)
              roll_not_position_key)).
Defined.

(** ** The exceptions of the reset event *)

Lemma index_rows_in_range {A} (t : list A) (env_ids : list nat) :
  in_range (length t) env_ids -> exists rows, index_rows t env_ids = inr rows.
Proof.
  intros H. unfold index_rows.
  destruct (mapM_is_Some_2 (fun i => t !! i) env_ids) as [rows Hrows].
  - eapply Forall_impl; [exact H |]. intros i Hi. now apply lookup_lt_is_Some.
  - exists rows. now rewrite Hrows.
Qed.

Lemma index_rows_out_of_range {A} (t : list A) (env_ids : list nat) :
  ~ in_range (length t) env_ids -> index_rows t env_ids = inl IndexError.
Proof.
  intros H. unfold index_rows.
  destruct (mapM (fun i => t !! i) env_ids) as [rows |] eqn:Hrows; [| reflexivity].
  exfalso. apply H.
  assert (Hsome : is_Some (mapM (fun i => t !! i) env_ids)) by (now exists rows).
  apply mapM_is_Some_1 in Hsome.
  eapply Forall_impl; [exact Hsome |]. intros i Hi. now apply lookup_lt_is_Some.
Qed.

(** Which exception the event raises.  An asset name that is not in
    the scene gives KeyError; otherwise an environment index past the
    rows of the default root state gives IndexError; otherwise, even for
    an empty [env_ids], the velocity sample gives RuntimeError.  In all
    three cases the environment is left as it was. *)
Theorem reset_exception (env_ids : list nat)
    (position_range velocity_range : gmap string (R * R))
    (max_radian : R) (asset_cfg : string) (rng : Draws)
    (env : ManagerBasedEnv) :
  (assets (scene env) !! asset_cfg = None ->
     reset_root_state_clamped_angular_distance
       env_ids position_range velocity_range max_radian asset_cfg rng env
     = (inl KeyError, env)) /\
  (forall asset, assets (scene env) !! asset_cfg = Some asset ->
     ~ in_range (length (default_root_state asset)) env_ids ->
     reset_root_state_clamped_angular_distance
       env_ids position_range velocity_range max_radian asset_cfg rng env
     = (inl IndexError, env)) /\
  (forall asset, assets (scene env) !! asset_cfg = Some asset ->
     in_range (length (default_root_state asset)) env_ids ->
     reset_root_state_clamped_angular_distance
       env_ids position_range velocity_range max_radian asset_cfg rng env
     = (inl RuntimeError, env)).
Proof.
  split; [| split].
  - intros Hnone.
    unfold reset_root_state_clamped_angular_distance, mbind at 1, get_asset.
    now rewrite Hnone.
  - intros asset Hsome Hout.
    unfold reset_root_state_clamped_angular_distance, mbind at 1, get_asset.
    rewrite Hsome. unfold mbind at 1, lift at 1.
    now rewrite (index_rows_out_of_range _ _ Hout).
  - intros asset Hsome Hin.
    unfold reset_root_state_clamped_angular_distance, mbind at 1, get_asset.
    rewrite Hsome. unfold mbind at 1, lift at 1.
    destruct (index_rows_in_range _ _ Hin) as [rows ->].
    unfold mbind at 1, lift at 1, xyz_pos_rand_samples.
    change 3%nat with (length (xyz_pos_ranges position_range)).
    rewrite sample_uniform_ranges.
    unfold mbind at 1, lift at 1.
    now rewrite xyzrpy_vel_rand_samples_raises.
Qed.

Lemma env0_robot : assets (scene env0) !! default_asset_cfg = Some robot0.
Proof. unfold env0, default_asset_cfg. cbn [scene assets]. apply lookup_singleton_eq. Defined.

Lemma reset_exception_witness :
  reset_root_state_clamped_angular_distance
    [] position_range0 velocity_range0 0 default_asset_cfg rng0 env0
  = (inl RuntimeError, env0).
Proof.
  assert (H : in_range (length (default_root_state robot0)) []) by constructor.
  exact (proj2 (proj2 (reset_exception [] position_range0 velocity_range0 0
                         default_asset_cfg rng0 env0))
               robot0 env0_robot H).
Defined.

(** ** The registered tasks *)

Lemma registration_ids (name agents_name : string) :
  Registration.id <$> Registration.registrations name agents_name =
    [ "Isaac-Velocity-Rough-G1-trunk-v0";
      "Isaac-Velocity-Rough-G1-trunk-Play-v0";
      "Isaac-Velocity-Rough-G1-trunk-v1";
      "Isaac-Velocity-Rough-G1-trunk-Play-v1";
      "Isaac-Velocity-Flat-G1-trunk-v0";
      "Isaac-Velocity-Flat-G1-trunk-Play-v0" ]%string.
Proof. reflexivity. Qed.

Lemma registration_env_cfgs (name agents_name : string) :
  Registration.kwarg "env_cfg_entry_point"
      <$> Registration.registrations name agents_name =
    (fun suffix => Some (name +:+ suffix))
      <$> [ ".rough_env_cfg:G1TrunkEnvCfg";
            ".rough_env_cfg:G1TrunkRoughEnvCfg_PLAY";
            ".rough_env_cfg:G1TrunkEnvCfgV2";
            ".rough_env_cfg:G1TrunkRoughEnvCfgV2_PLAY";
            ".flat_env_cfg:G1TrunkFlatEnvCfgV1";
            ".flat_env_cfg:G1TrunkFlatEnvCfgV1_PLAY" ]%string.
Proof.
  unfold Registration.registrations, Registration.kwarg, Registration.make_kwargs.
  cbn [fmap list_fmap Registration.kwargs].
  now rewrite !lookup_insert_eq.
Qed.

(** Importing the module registers six tasks under pairwise distinct
    ids, so no registration replaces another, and whatever the module
    is called no two ids point to the same environment configuration. *)
Theorem registrations_distinct (name agents_name : string) :
  length (Registration.registrations name agents_name) = 6%nat /\
  NoDup (Registration.id <$> Registration.registrations name agents_name) /\
  NoDup (Registration.kwarg "env_cfg_entry_point"
           <$> Registration.registrations name agents_name).
Proof.
  split; [reflexivity |]. split.
  - rewrite registration_ids.
    refine (bool_decide_unpack _ _). vm_compute. exact I.
  - rewrite registration_env_cfgs. apply NoDup_fmap_2.
    + intros s1 s2 H. injection H as H. now apply String.app_inj in H.
    + refine (bool_decide_unpack _ _). vm_compute. exact I.
Qed.
